(** * StockAnalysis: Elliott-wave projection engine and chart viewport

    A shallow embedding of the calculation core of the wave calculator
    ([CalculatorView], the "Logic Core" effect) and of the indexing model of
    the interactive chart ([SmartChartComponent]).

    Numbers.  A JavaScript [number] is modelled as an exact rational ([Q]):
    rounding of IEEE doubles, [NaN] and the infinities are outside the model,
    and so is a division by zero; the statements below keep every divisor
    positive.  Where a statement is about the value a computation rounds to,
    it is made over a second model of the projection engine on binary64
    floats ([CalculatorDouble]).
    Numeric results are compared with [==] ([Qeq]) where a value has to be
    normalised, and with [=] where the code builds the very same expression.
    Integer-valued numbers (array indices, lengths) are [Z] or [nat]. *)

From Stdlib Require Import QArith ZArith List String Bool Lia Lqa Qround Qabs.
From Stdlib Require Import Permutation.
From Stdlib Require Floats.
Import ListNotations.

Local Open Scope Q_scope.

(** ** Number helpers *)

(** [a <= b] and [a >= b] on numbers, as the boolean tests of the source. *)
Definition num_le (a b : Q) : bool := Qle_bool a b.
Definition num_ge (a b : Q) : bool := Qle_bool b a.
Definition num_lt (a b : Q) : bool := negb (Qle_bool b a).
Definition num_gt (a b : Q) : bool := negb (Qle_bool a b).

Definition Math_max (a b : Q) : Q := if Qle_bool a b then b else a.
Definition Math_min (a b : Q) : Q := if Qle_bool a b then a else b.
Definition Math_floor (a : Q) : Z := Qfloor a.
Definition Math_ceil (a : Q) : Z := Qceiling a.
(** [Math.round] rounds half-way cases towards plus infinity. *)
Definition Math_round (a : Q) : Z := Qfloor (a + (1 # 2)).

(** ** types.ts *)

(** [number | ''] : the empty string is [None]. *)
Definition field := option Q.

Module WaveInputs.
Record t := mk {
  p0 : field;
  p1 : field;
  p2 : field;
  p3 : field;
  current : field
}.
End WaveInputs.

(** The literal type [0.382 | 0.5 | 0.618]. *)
Inductive FibRatio := R0382 | R05 | R0618.

Definition ratio_value (r : FibRatio) : Q :=
  match r with
  | R0382 => 0.382
  | R05 => 0.5
  | R0618 => 0.618
  end.

Module CalculationResult.
Record t := mk {
  isValid : bool;
  error : option string;
  w1Height : Q;
  w2RetracementPct : Q;
  w3Min : Q;
  w3Gold : Q;
  w4Target : Q;
  w5Target : Q;
  selectedRatio : Q;
  usingManualP3 : bool
}.

(** [{ ...prev, isValid: false, error: e }] *)
Definition invalidate (prev : t) (e : option string) : t :=
  mk false e (w1Height prev) (w2RetracementPct prev) (w3Min prev)
     (w3Gold prev) (w4Target prev) (w5Target prev) (selectedRatio prev)
     (usingManualP3 prev).
End CalculationResult.

Module CandleData.
Record t := mk {
  date : string;
  open : Q;
  high : Q;
  low : Q;
  close : Q;
  volume : Q
}.
End CandleData.

Inductive PointType := Tp0 | Tp1 | Tp2.

Module ChartPoint.
Record t := mk {
  index : Z;
  price : Q;
  date : string;
  type : PointType
}.

(** [{ ...p, index: i }] *)
Definition with_index (p : t) (i : Z) : t :=
  mk i (price p) (date p) (type p).
End ChartPoint.

(** ** components/Calculator.tsx : the projection engine *)

Module Calculator.
Import CalculationResult.

Definition INITIAL_INPUTS : WaveInputs.t :=
  WaveInputs.mk None None None None None.

(** The initial value of the [result] state. *)
Definition INITIAL_RESULT : CalculationResult.t :=
  mk false None 0 0 0 0 0 0 0.382 false.

Definition ERR_P1 : string := "第 1 波高點必須高於起漲點 (P1 > P0)".
Definition ERR_P2_LOW : string := "波浪理論鐵律：第 2 波低點不能低於起漲點 (P2 破底)".
Definition ERR_P2_HIGH : string := "第 2 波必須是回調 (P2 < P1)".
Definition ERR_P3 : string := "第 3 波高點必須高於 P2".

(** The part of the effect that runs once P0, P1 and P2 are present.
    [prev] is the state the functional updates of [setResult] receive. *)
Definition compute (valP0 valP1 valP2 : Q) (valP3 : option Q)
           (fibRatio : FibRatio) (prev : CalculationResult.t)
  : CalculationResult.t :=
  if num_le valP1 valP0 then invalidate prev (Some ERR_P1)
  else if num_le valP2 valP0 then invalidate prev (Some ERR_P2_LOW)
  else if num_ge valP2 valP1 then invalidate prev (Some ERR_P2_HIGH)
  else
    let w1Height := valP1 - valP0 in
    let w2RetracementVal := valP1 - valP2 in
    let w2RetracementPct := (w2RetracementVal / w1Height) * 100 in
    let w3Min := valP2 + w1Height in
    let w3Gold := valP2 + (w1Height * 1.618) in
    if match valP3 with
       | Some v => num_le v valP2
       | None => false
       end
    then invalidate prev (Some ERR_P3)
    else
      let activeW3Peak :=
        match valP3 with Some v => v | None => w3Gold end in
      let w3Height := activeW3Peak - valP2 in
      let w4Target := activeW3Peak - (w3Height * ratio_value fibRatio) in
      let w5Target := w4Target + w1Height in
      mk true None w1Height w2RetracementPct w3Min w3Gold w4Target
         w5Target (ratio_value fibRatio)
         (match valP3 with Some _ => true | None => false end).

(** The "Logic Core" effect: the next [result] state for the current
    [inputs] and [fibRatio]. *)
Definition calculate (inputs : WaveInputs.t) (fibRatio : FibRatio)
           (prev : CalculationResult.t) : CalculationResult.t :=
  match WaveInputs.p0 inputs, WaveInputs.p1 inputs, WaveInputs.p2 inputs with
  | Some valP0, Some valP1, Some valP2 =>
      compute valP0 valP1 valP2 (WaveInputs.p3 inputs) fibRatio prev
  | _, _, _ => invalidate prev None
  end.

(** The effect re-runs whenever [inputs] or [fibRatio] change; a run of
    the component is the list of the values they took. *)
Definition run (events : list (WaveInputs.t * FibRatio))
           (init : CalculationResult.t) : CalculationResult.t :=
  fold_left (fun st ev => calculate (fst ev) (snd ev) st) events init.

(** The numeric outputs of a result (everything but the flag and the
    error reason). *)
Definition outputs (r : CalculationResult.t)
  : Q * Q * Q * Q * Q * Q * Q * bool :=
  (w1Height r, w2RetracementPct r, w3Min r, w3Gold r, w4Target r,
   w5Target r, selectedRatio r, usingManualP3 r).
End Calculator.

(** ** The projection engine on IEEE doubles *)

(** The same effect once more with a [number] as a binary64 float: every
    operation rounds as the program's does, and [<=] and [>=] are false as
    soon as an operand is [NaN].  The statements that depend on rounding
    are made over this model. *)
Module CalculatorDouble.
Import PrimFloat.
Local Open Scope float_scope.

(** [number | ''] *)
Definition field := option float.

Record WaveInputs := mkInputs {
  p0 : field;
  p1 : field;
  p2 : field;
  p3 : field;
  current : field
}.

Record CalculationResult := mkResult {
  isValid : bool;
  error : option string;
  w1Height : float;
  w2RetracementPct : float;
  w3Min : float;
  w3Gold : float;
  w4Target : float;
  w5Target : float;
  selectedRatio : float;
  usingManualP3 : bool
}.

(** [{ ...prev, isValid: false, error: e }] *)
Definition invalidate (prev : CalculationResult) (e : option string)
  : CalculationResult :=
  mkResult false e (w1Height prev) (w2RetracementPct prev) (w3Min prev)
           (w3Gold prev) (w4Target prev) (w5Target prev)
           (selectedRatio prev) (usingManualP3 prev).

(** The doubles the three literals of the ratio denote. *)
#[warnings="-inexact-float"]
Definition ratio_value (r : FibRatio) : float :=
  match r with
  | R0382 => 0.382
  | R05 => 0.5
  | R0618 => 0.618
  end.

(** [a <= b] and [a >= b] on doubles. *)
Definition num_le (a b : float) : bool := a <=? b.
Definition num_ge (a b : float) : bool := b <=? a.

#[warnings="-inexact-float"]
Definition INITIAL_RESULT : CalculationResult :=
  mkResult false None 0 0 0 0 0 0 0.382 false.

#[warnings="-inexact-float"]
Definition compute (valP0 valP1 valP2 : float) (valP3 : option float)
           (fibRatio : FibRatio) (prev : CalculationResult)
  : CalculationResult :=
  if num_le valP1 valP0 then invalidate prev (Some Calculator.ERR_P1)
  else if num_le valP2 valP0 then invalidate prev (Some Calculator.ERR_P2_LOW)
  else if num_ge valP2 valP1 then invalidate prev (Some Calculator.ERR_P2_HIGH)
  else
    let w1Height := valP1 - valP0 in
    let w2RetracementVal := valP1 - valP2 in
    let w2RetracementPct := (w2RetracementVal / w1Height) * 100 in
    let w3Min := valP2 + w1Height in
    let w3Gold := valP2 + (w1Height * 1.618) in
    if match valP3 with
       | Some v => num_le v valP2
       | None => false
       end
    then invalidate prev (Some Calculator.ERR_P3)
    else
      let activeW3Peak :=
        match valP3 with Some v => v | None => w3Gold end in
      let w3Height := activeW3Peak - valP2 in
      let w4Target := activeW3Peak - (w3Height * ratio_value fibRatio) in
      let w5Target := w4Target + w1Height in
      mkResult true None w1Height w2RetracementPct w3Min w3Gold w4Target
               w5Target (ratio_value fibRatio)
               (match valP3 with Some _ => true | None => false end).

Definition calculate (inputs : WaveInputs) (fibRatio : FibRatio)
           (prev : CalculationResult) : CalculationResult :=
  match p0 inputs, p1 inputs, p2 inputs with
  | Some valP0, Some valP1, Some valP2 =>
      compute valP0 valP1 valP2 (p3 inputs) fibRatio prev
  | _, _, _ => invalidate prev None
  end.

(** Inputs with P0, P1 and P2 present, and the peak of wave 3 the
    downstream formulas use. *)
Definition complete_inputs (P0 P1 P2 : float) (P3 cur : option float)
  : WaveInputs :=
  mkInputs (Some P0) (Some P1) (Some P2) P3 cur.

Definition activeW3Peak (P3 : option float) (res : CalculationResult)
  : float :=
  match P3 with
  | Some v => v
  | None => w3Gold res
  end.

(** The structure P0 = 10, P1 = 20, P2 = 15 at the ratio 0.5, P3 not
    supplied. *)
Definition structure_10_20_15 : WaveInputs :=
  complete_inputs 10 20 15 None None.

Definition result_10_20_15 : CalculationResult :=
  calculate structure_10_20_15 R05 INITIAL_RESULT.
End CalculatorDouble.

(** ** components/SmartChart.tsx : viewport and indexing model *)

(** [arr[j]] : [undefined] (here [None]) outside the array. *)
Definition js_get {A : Type} (arr : list A) (j : Z) : option A :=
  if (j <? 0)%Z then None else nth_error arr (Z.to_nat j).

(** [arr.findIndex(f)] : the first index whose element satisfies [f],
    [-1] when there is none. *)
Fixpoint findIndex {A : Type} (f : A -> bool) (arr : list A) : Z :=
  match arr with
  | [] => (-1)%Z
  | x :: rest =>
      if f x then 0%Z
      else let r := findIndex f rest in
           if (r =? -1)%Z then (-1)%Z else (r + 1)%Z
  end.

(** The counter values [from, from+1, ..., from+count-1] of a [for] loop. *)
Definition loop_range (from : Z) (count : Z) : list Z :=
  map (fun k => (from + Z.of_nat k)%Z) (seq 0 (Z.to_nat count)).

Module Signal.
Inductive side := B | S.
Record t := mk { type : side; code : Z; label : string }.
End Signal.

Module SmartChart.

(** The pieces of component state the indexing model reads and writes;
    [prevDataLen] is the [useRef] cell. *)
Record State := mkState {
  points : list ChartPoint.t;
  selection : option Z;
  offset : Q;
  zoom : Q;
  prevDataLen : Z
}.

(** The overlay configuration (the "active" values).  [maLength] is the
    whole number of the window input (min 5, max 240, step 1). *)
Record Config := mkConfig {
  volMALength : Q;
  granvilleEnabled : bool;
  maLength : Z
}.

Definition len (data : list CandleData.t) : Z := Z.of_nat (List.length data).

(** *** Synchronous offset adjustment (evaluated during render) *)

Definition dataDiff (st : State) (dataLength : Z) : Z :=
  if (prevDataLen st <? dataLength)%Z
  then (dataLength - prevDataLen st)%Z
  else 0%Z.

Definition effectiveOffset (st : State) (dataLength : Z) : Q :=
  if (prevDataLen st <? dataLength)%Z
  then offset st + inject_Z (dataDiff st dataLength)
  else offset st.

(** The [useLayoutEffect] on [data.length]. *)
Definition layoutEffect (st : State) (dataLength : Z) : State :=
  if (prevDataLen st <? dataLength)%Z then
    let diff := (dataLength - prevDataLen st)%Z in
    mkState
      (map (fun p => ChartPoint.with_index p (ChartPoint.index p + diff)%Z)
           (points st))
      (match selection st with
       | Some prev => Some (prev + diff)%Z
       | None => None
       end)
      (offset st + inject_Z diff)
      (zoom st)
      dataLength
  else if (dataLength <? prevDataLen st)%Z then
    mkState (points st) (selection st)
            (Math_max 0 (inject_Z dataLength - 60))
            (zoom st) dataLength
  else
    mkState (points st) (selection st) (offset st) (zoom st) dataLength.

(** The [useEffect] on [data.length]; it runs after the layout effect. *)
Definition passiveEffect (st : State) (dataLength : Z) : State :=
  if ((0 <? dataLength) && (prevDataLen st =? 0))%Z then
    mkState (points st) (selection st)
            (Math_max 0 (inject_Z dataLength - 60))
            (zoom st) (prevDataLen st)
  else st.

(** The state committed after a change of [data.length]. *)
Definition onDataLength (st : State) (dataLength : Z) : State :=
  passiveEffect (layoutEffect st dataLength) dataLength.

Definition visibleStartIndex (st : State) (dataLength : Z) : Z :=
  Math_floor (Math_max 0 (effectiveOffset st dataLength)).

Definition visibleEndIndex (st : State) (dataLength : Z) : Z :=
  Z.min (dataLength - 1)
        (Math_ceil (effectiveOffset st dataLength + zoom st)).

(** [start] and [end] of the render loop, inclusive. *)
Definition visibleRange (st : State) (dataLength : Z) : Z * Z :=
  (Z.max 0 (visibleStartIndex st dataLength),
   Z.min (dataLength - 1) (visibleEndIndex st dataLength)).

(** [handleWheel] / pinch: the zoom is clamped to [15, 300]. *)
Definition clampZoom (z : Q) : Q := Math_min (Math_max 15 z) 300.

(** [onDrag]: the new pan position for a drag of [deltaBars] candles
    from [dragStartOffset]; the right edge stops at [data.length - 5]. *)
Definition onDrag (st : State) (dataLength : Z)
           (dragStartOffset deltaBars : Q) : State :=
  let newOffset := dragStartOffset + deltaBars in
  let newOffset :=
    if num_gt newOffset (inject_Z dataLength - 5)
    then inject_Z dataLength - 5
    else newOffset in
  mkState (points st) (selection st) newOffset (zoom st) (prevDataLen st).

Definition handleResetView (st : State) (dataLength : Z) : State :=
  let targetZoom := 60 in
  mkState (points st) (selection st)
          (Math_max 0 (inject_Z dataLength - targetZoom))
          targetZoom (prevDataLen st).

(** *** Pivot re-indexing *)

Definition mappedPoints (pts : list ChartPoint.t) (data : list CandleData.t)
           (diff : Z) : list ChartPoint.t :=
  map (fun p =>
         let newIndex :=
           findIndex (fun d => String.eqb (CandleData.date d)
                                          (ChartPoint.date p)) data in
         if negb (newIndex =? -1)%Z
         then ChartPoint.with_index p newIndex
         else ChartPoint.with_index p (ChartPoint.index p + diff)%Z)
      pts.

(** *** Derived overlays *)

(** Field reads of [data[j]].  Every read of the render loop is guarded
    so that [j] is inside the array; the default is never observed. *)
Definition closeAt (data : list CandleData.t) (j : Z) : Q :=
  match js_get data j with Some d => CandleData.close d | None => 0 end.

Definition volumeAt (data : list CandleData.t) (j : Z) : Q :=
  match js_get data j with Some d => CandleData.volume d | None => 0 end.

(** One cell of [maData]: [null] unless the window is filled.  The
    window is at least one bar wherever the cell is used below: a window
    of 0 makes the program's average [NaN] (0/0), and a negative one lets
    the signal test of bar 0 read [data[-1]]; neither is modelled. *)
Definition maCell (cfg : Config) (data : list CandleData.t) (i : Z)
  : option Q :=
  if granvilleEnabled cfg && (maLength cfg - 1 <=? i)%Z then
    let sum :=
      fold_left (fun sum k => sum + closeAt data (i - k))
                (loop_range 0 (maLength cfg)) 0 in
    Some (sum / inject_Z (maLength cfg))
  else None.

Definition maData (cfg : Config) (data : list CandleData.t)
  : list (option Q) :=
  map (maCell cfg data) (loop_range 0 (len data)).

(** [maData[j]] with [undefined] and [null] both read as [None]; the
    render loop only reads inside the array once the window is at least
    one bar. *)
Definition maAt (cfg : Config) (data : list CandleData.t) (j : Z)
  : option Q :=
  match js_get (maData cfg data) j with
  | Some cell => cell
  | None => None
  end.

Definition vLen (cfg : Config) : Z :=
  Z.max 1 (Math_round (volMALength cfg)).

(** The trailing volume average of bar [i]. *)
Definition volMA (cfg : Config) (data : list CandleData.t) (i : Z)
  : option Q :=
  if (vLen cfg <=? i)%Z then
    let sumVol :=
      fold_left (fun sumVol k => sumVol + volumeAt data (i - k))
                (loop_range 1 (vLen cfg)) 0 in
    Some (sumVol / inject_Z (vLen cfg))
  else None.

Definition isVolAnomaly (cfg : Config) (data : list CandleData.t) (i : Z)
  : bool :=
  match volMA cfg data i with
  | Some m => num_ge (volumeAt data i) m
  | None => false
  end.

Definition SIG_B1 : Signal.t := Signal.mk Signal.B 1 "突破".
Definition SIG_S5 : Signal.t := Signal.mk Signal.S 5 "跌破".
Definition SIG_B4 : Signal.t := Signal.mk Signal.B 4 "超賣".
Definition SIG_S8 : Signal.t := Signal.mk Signal.S 8 "超買".

(** The four tests of the signal cascade, on the values the source
    binds: [currentMa], [prevMa], [prevPrice], [currPrice]. *)
Definition bias (currentMa currPrice : Q) : Q :=
  (currPrice - currentMa) / currentMa.

Definition isBreakout (currentMa prevMa prevPrice currPrice : Q) : bool :=
  negb (num_lt currentMa prevMa)
  && num_lt prevPrice prevMa && num_gt currPrice currentMa.

Definition isBreakdown (currentMa prevMa prevPrice currPrice : Q) : bool :=
  negb (num_gt currentMa prevMa)
  && num_gt prevPrice prevMa && num_lt currPrice currentMa.

Definition isOversold (currentMa currPrice : Q) : bool :=
  num_lt (bias currentMa currPrice) (-0.20).

Definition isOverbought (currentMa currPrice : Q) : bool :=
  num_gt (bias currentMa currPrice) 0.20.

Definition granvilleSignal (cfg : Config) (data : list CandleData.t)
           (i : Z) : option Signal.t :=
  if granvilleEnabled cfg && (maLength cfg <? i)%Z then
    match maAt cfg data i, maAt cfg data (i - 1) with
    | Some currentMa, Some prevMa =>
        let prevPrice := closeAt data (i - 1) in
        let currPrice := closeAt data i in
        if isBreakout currentMa prevMa prevPrice currPrice
        then Some SIG_B1
        else if isBreakdown currentMa prevMa prevPrice currPrice
        then Some SIG_S5
        else if isOversold currentMa currPrice then Some SIG_B4
        else if isOverbought currentMa currPrice then Some SIG_S8
        else None
    | _, _ => None
    end
  else None.

(** One entry of [visData]. *)
Record VisibleBar := mkBar {
  candle : CandleData.t;
  bar_index : Z;
  bar_isVolAnomaly : bool;
  bar_volMA : option Q;
  bar_maValue : option Q;
  bar_granvilleSignal : option Signal.t
}.

(** The render loop [for (let i = start; i <= end; i++)]. *)
Definition visibleData (cfg : Config) (st : State)
           (data : list CandleData.t) : list VisibleBar :=
  let '(start, end_) := visibleRange st (len data) in
  flat_map
    (fun i =>
       match js_get data i with
       | Some d =>
           [mkBar d i (isVolAnomaly cfg data i) (volMA cfg data i)
                  (maAt cfg data i) (granvilleSignal cfg data i)]
       | None => []
       end)
    (loop_range start (end_ - start + 1)).

End SmartChart.

(** ** Specification-side vocabulary *)

(** [first_in P order o] : [o] is the first element of [order] that
    satisfies [P], or [None] when no element of [order] does. *)
Definition first_in {A : Type} (P : A -> Prop) (order : list A)
           (o : option A) : Prop :=
  match o with
  | Some a =>
      exists before after,
        order = before ++ a :: after /\ Forall (fun b => ~ P b) before /\ P a
  | None => Forall (fun b => ~ P b) order
  end.

(** The four wave-structure validations, as the specification words them. *)
Module WaveCheck.
Inductive t := P1_above_P0 | P2_above_P0 | P2_below_P1 | P3_above_P2.

Definition order : list t :=
  [P1_above_P0; P2_above_P0; P2_below_P1; P3_above_P2].

Definition holds (P0 P1 P2 : Q) (P3 : option Q) (c : t) : Prop :=
  match c with
  | P1_above_P0 => P1 > P0
  | P2_above_P0 => P2 > P0
  | P2_below_P1 => P2 < P1
  | P3_above_P2 => match P3 with Some v => v > P2 | None => True end
  end.

Definition fails (P0 P1 P2 : Q) (P3 : option Q) (c : t) : Prop :=
  ~ holds P0 P1 P2 P3 c.

Definition message (c : t) : string :=
  match c with
  | P1_above_P0 => Calculator.ERR_P1
  | P2_above_P0 => Calculator.ERR_P2_LOW
  | P2_below_P1 => Calculator.ERR_P2_HIGH
  | P3_above_P2 => Calculator.ERR_P3
  end.
End WaveCheck.

(** Inputs with P0, P1, P2 entered, P3 optional. *)
Definition complete_inputs (P0 P1 P2 : Q) (P3 cur : option Q) : WaveInputs.t :=
  WaveInputs.mk (Some P0) (Some P1) (Some P2) P3 cur.

(** The peak of wave 3 the downstream formulas use. *)
Definition activeW3Peak (P3 : option Q) (res : CalculationResult.t) : Q :=
  match P3 with
  | Some v => v
  | None => CalculationResult.w3Gold res
  end.

Definition supplied (P3 : option Q) : bool :=
  match P3 with Some _ => true | None => false end.

(** Sum and arithmetic mean of a list of numbers. *)
Definition Qsum (l : list Q) : Q := fold_right Qplus 0 l.

Definition mean (l : list Q) : Q :=
  Qsum l / inject_Z (Z.of_nat (List.length l)).

(** The volumes of the [N] bars strictly before bar [i]:
    [data[i-N], ..., data[i-1]]. *)
Definition preceding_volumes (data : list CandleData.t) (i N : Z) : list Q :=
  map CandleData.volume
      (firstn (Z.to_nat N) (skipn (Z.to_nat (i - N)) data)).

(** A pivot is anchored in [data] when its stored index is the position of
    the candle carrying its stored date, as [confirmSetPoint] creates it. *)
Definition anchored (data : list CandleData.t) (p : ChartPoint.t) : Prop :=
  exists d, js_get data (ChartPoint.index p) = Some d
            /\ CandleData.date d = ChartPoint.date p.

Definition date_absent (data : list CandleData.t) (p : ChartPoint.t) : Prop :=
  ~ In (ChartPoint.date p) (map CandleData.date data).

(** Candle prices are positive (the data model of the feed). *)
Definition positive_closes (data : list CandleData.t) : Prop :=
  Forall (fun d => 0 < CandleData.close d) data.

(** The four Granville categories, as the specification words them. *)
Module Granville.
Inductive t := Breakout | Breakdown | Oversold | Overbought.

Definition priority : list t := [Breakout; Breakdown; Oversold; Overbought].

(** [ma], [prevMa]: the moving average at the bar and at its predecessor;
    [close], [prevClose]: the closing prices likewise. *)
Definition matches (ma prevMa prevClose close : Q) (g : t) : Prop :=
  match g with
  | Breakout => prevMa <= ma /\ prevClose < prevMa /\ close > ma
  | Breakdown => ma <= prevMa /\ prevClose > prevMa /\ close < ma
  | Oversold => (close - ma) / ma < -0.20
  | Overbought => (close - ma) / ma > 0.20
  end.

Definition signal (g : t) : Signal.t :=
  match g with
  | Breakout => SmartChart.SIG_B1
  | Breakdown => SmartChart.SIG_S5
  | Oversold => SmartChart.SIG_B4
  | Overbought => SmartChart.SIG_S8
  end.

(** The claim of the specification at one bar: once the moving average
    is defined at the bar and at its predecessor, the signal is the
    first matching category. *)
Definition assigned_by_priority (cfg : SmartChart.Config)
           (data : list CandleData.t) (i : Z) : Prop :=
  forall ma prevMa,
    SmartChart.maAt cfg data i = Some ma ->
    SmartChart.maAt cfg data (i - 1) = Some prevMa ->
    exists o,
      first_in (matches ma prevMa (SmartChart.closeAt data (i - 1))
                        (SmartChart.closeAt data i))
               priority o
      /\ SmartChart.granvilleSignal cfg data i = option_map signal o.
End Granville.

(** ** Concrete inputs *)

Module Examples.
(** A candle of which only the date, the close and the volume matter. *)
Definition bar (date : string) (close volume : Q) : CandleData.t :=
  CandleData.mk date close close close close volume.

(** Scenario A of the calculator. *)
Definition scenarioA : WaveInputs.t :=
  complete_inputs 100 150 120 None None.

Definition resultA : CalculationResult.t :=
  Calculator.calculate scenarioA R05 Calculator.INITIAL_RESULT.

(** A freshly mounted chart over [n] candles. *)
Definition mounted (n : Z) : SmartChart.State :=
  SmartChart.mkState [] None 0 60 n.

(** Scenario D: 200 candles at the default zoom, then a pan to 150. *)
Definition scenarioD : SmartChart.State := mounted 200.

Definition scenarioD_panned : SmartChart.State :=
  SmartChart.onDrag scenarioD 200 (SmartChart.offset scenarioD) 150.

(** A chart of 300 candles zoomed to [z] visible candles and panned to
    its newest end. *)
Definition zoomed_latest (z : Q) : SmartChart.State :=
  SmartChart.mkState [] None (300 - z) (SmartChart.clampZoom z) 300.

(** Six closes with a five-bar average crossed upwards at the last. *)
Definition crossing : list CandleData.t :=
  [bar "2024-01-02" 20 1000; bar "2024-01-03" 20 1000;
   bar "2024-01-04" 20 1000; bar "2024-01-05" 20 1000;
   bar "2024-01-08" 10 1000; bar "2024-01-09" 40 3000].

Definition crossing_older : list CandleData.t :=
  [bar "2023-12-28" 21 900; bar "2023-12-29" 22 800].

Definition cfg5 : SmartChart.Config := SmartChart.mkConfig 5 true 5.
Definition cfg2 : SmartChart.Config := SmartChart.mkConfig 2 true 2.

Definition pivots : list ChartPoint.t :=
  [ChartPoint.mk 4 10 "2024-01-08" Tp0; ChartPoint.mk 5 40 "2024-01-09" Tp1].

Definition charted : SmartChart.State :=
  SmartChart.mkState pivots None 0 60 6.
End Examples.

(** ** components/SmartChart.tsx : coordinates, handlers and pivots *)

Inductive PriceType := high | low.

Module NextPoint.
Record t := mk {
  type : PointType;
  label : string;
  fullLabel : string;
  priceType : PriceType
}.
End NextPoint.

Module SmartChartUI.
Import SmartChart.

Definition FUTURE_BARS (st : State) : Q :=
  if (List.length (points st) =? 3)%nat then 30 else 5.
Definition PADDING_TOP : Q := 0.15.
Definition VOLUME_HEIGHT_RATIO : Q := 0.2.
Definition RIGHT_AXIS_WIDTH : Q := 50.
Definition WIDTH : Q := 1000.
Definition CHART_WIDTH : Q := WIDTH - RIGHT_AXIS_WIDTH.
Definition HEIGHT : Q := 500.
Definition CHART_H : Q := HEIGHT * (1 - VOLUME_HEIGHT_RATIO).

Definition effectiveZoom (st : State) : Q :=
  zoom st + (FUTURE_BARS st * (zoom st / 60)).

(** [getX], the [xScale] of the render. *)
Definition getX (st : State) (dataLength : Z) (index : Q) : Q :=
  ((index - effectiveOffset st dataLength) / effectiveZoom st) * CHART_WIDTH.

(** [cWidth], the [candleWidth] of the render. *)
Definition candleWidth (st : State) : Q :=
  (CHART_WIDTH / effectiveZoom st) * 0.7.

(** *** The price extent of the visible bars *)

(** [x < min] and [x > max] where the bound may still be its initial
    [Infinity] / [-Infinity], written [None]. *)
Definition below (x : Q) (bound : option Q) : bool :=
  match bound with Some b => num_lt x b | None => true end.

Definition above (x : Q) (bound : option Q) : bool :=
  match bound with Some b => num_gt x b | None => true end.

(** The updates of [min] and [max] in one iteration of the render loop. *)
Definition extentStep (cfg : Config) (acc : option Q * option Q)
           (b : VisibleBar) : option Q * option Q :=
  let d := candle b in
  let min := fst acc in
  let max := snd acc in
  let min := if below (CandleData.low d) min
             then Some (CandleData.low d) else min in
  let max := if above (CandleData.high d) max
             then Some (CandleData.high d) else max in
  if granvilleEnabled cfg then
    match bar_maValue b with
    | Some ma =>
        (if below ma min then Some ma else min,
         if above ma max then Some ma else max)
    | None => (min, max)
    end
  else (min, max).

(** [min] and [max] after the loop and after
    [if (min === Infinity) { min = 0; max = 100; }].  [None] stands for a
    finite [min] with [max] still [-Infinity], which is no number of the
    model. *)
Definition priceExtent (cfg : Config) (st : State)
           (data : list CandleData.t) : option (Q * Q) :=
  match fold_left (extentStep cfg) (visibleData cfg st data) (None, None) with
  | (None, _) => Some (0, 100)
  | (Some min, Some max) => Some (min, max)
  | (Some _, None) => None
  end.

(** [getY], the [yScale] of the render, for the extent [min], [max]. *)
Definition getY (min max : Q) (price : Q) : Q :=
  let priceRange := max - min in
  let paddedMin := min - (priceRange * PADDING_TOP) in
  let paddedMax := max + (priceRange * PADDING_TOP) in
  let viewHeight :=
    if Qeq_bool (paddedMax - paddedMin) 0 then 1
    else paddedMax - paddedMin in
  CHART_H - ((price - paddedMin) / viewHeight) * CHART_H.

(** *** Handlers *)

Definition handleWheel (st : State) (deltaY : Q) : State :=
  let zoomSensitivity := 0.05 in
  let delta := deltaY * zoomSensitivity in
  mkState (points st) (selection st) (offset st)
          (Math_min (Math_max 15 (zoom st + delta)) 300) (prevDataLen st).

(** The pinch branch of [onDrag]: [dist] is the current distance of the
    two touches. *)
Definition onPinch (st : State) (pinchStartDist pinchStartZoom dist : Q)
  : State :=
  if num_gt pinchStartDist 0 then
    let scale := pinchStartDist / dist in
    let newZoom := pinchStartZoom * scale in
    mkState (points st) (selection st) (offset st)
            (Math_min (Math_max 15 newZoom) 300) (prevDataLen st)
  else st.


Definition handleSvgClick (st : State) (dataLength : Z)
           (isDragging isPinching : bool) (x svgWidth : Q) : State :=
  if isDragging || isPinching then st
  else if (dataLength =? 0)%Z then st
  else if num_gt x (svgWidth * (1 - RIGHT_AXIS_WIDTH / 1000)) then st
  else
    let effectiveZoom := zoom st + (FUTURE_BARS st * (zoom st / 60)) in
    let chartWidthRatio := (1000 - RIGHT_AXIS_WIDTH) / 1000 in
    let clickIndexFloat :=
      (x / (svgWidth * chartWidthRatio)) * effectiveZoom
      + effectiveOffset st dataLength in
    let index := Math_round clickIndexFloat in
    if ((0 <=? index) && (index <? dataLength))%Z
    then mkState (points st) (Some index) (offset st) (zoom st)
                 (prevDataLen st)
    else mkState (points st) None (offset st) (zoom st) (prevDataLen st).

Definition handleUndo (st : State) : State :=
  mkState (removelast (points st)) None (offset st) (zoom st)
          (prevDataLen st).

Definition handleClear (st : State) : State :=
  mkState [] None (offset st) (zoom st) (prevDataLen st).

Definition getNextPointType (st : State) : option NextPoint.t :=
  match List.length (points st) with
  | 0%nat => Some (NextPoint.mk Tp0 "P0" "設定為 P0 (起漲點)" low)
  | 1%nat => Some (NextPoint.mk Tp1 "P1" "設定為 P1 (第一波高)" high)
  | 2%nat => Some (NextPoint.mk Tp2 "P2" "設定為 P2 (第二波低)" low)
  | _ => None
  end.

(** [confirmSetPoint]; [None] is the [TypeError] of reading a field of
    [data[selection]] when that is [undefined]. *)
Definition confirmSetPoint (st : State) (data : list CandleData.t)
  : option State :=
  match selection st with
  | None => Some st
  | Some sel =>
      match getNextPointType st with
      | None => Some st
      | Some nextInfo =>
          match js_get data sel with
          | None => None
          | Some candle =>
              let price :=
                match NextPoint.priceType nextInfo with
                | high => CandleData.high candle
                | low => CandleData.low candle
                end in
              Some (mkState
                      (points st
                       ++ [ChartPoint.mk sel price (CandleData.date candle)
                                         (NextPoint.type nextInfo)])
                      None (offset st) (zoom st) (prevDataLen st))
          end
      end
  end.

(** *** Statistics and projections of the marked wave *)

Module WaveStats.
Record t := mk { w1Change : option Q; w2Retrace : option Q }.
End WaveStats.

Definition waveStats (mapped : list ChartPoint.t) : WaveStats.t :=
  match mapped with
  | p0 :: p1 :: rest =>
      let w1Change :=
        ((ChartPoint.price p1 - ChartPoint.price p0) / ChartPoint.price p0)
        * 100 in
      let w2Retrace :=
        match rest with
        | p2 :: _ =>
            let w1Height := Qabs (ChartPoint.price p1 - ChartPoint.price p0) in
            let w2Drop := Qabs (ChartPoint.price p1 - ChartPoint.price p2) in
            if negb (Qeq_bool w1Height 0)
            then Some ((w2Drop / w1Height) * 100)
            else None
        | [] => None
        end in
      WaveStats.mk (Some w1Change) w2Retrace
  | _ => WaveStats.mk None None
  end.

Module Projection.
Record point := mkPoint { x : Q; y : Q; price : Q }.
Record line := mkLine { x1 : Q; y1 : Q; x2 : Q; y2 : Q }.
Record t := mk { p3 : point; p4 : point; p5 : point; lines : list line }.
End Projection.

(** [p3Index], [p4Index], [p5Index] of [projections]. *)
Definition projectedIndices (p0 p1 p2 : ChartPoint.t) : Z * Z * Z :=
  let t1 := Z.abs (ChartPoint.index p1 - ChartPoint.index p0) in
  let t3 := Z.max 5 (Math_floor (inject_Z t1 * 1.618)) in
  let t4 := Z.max 3 (Math_floor (inject_Z t1)) in
  let t5 := Z.max 5 t1 in
  let p3Index := (ChartPoint.index p2 + t3)%Z in
  let p4Index := (p3Index + t4)%Z in
  let p5Index := (p4Index + t5)%Z in
  (p3Index, p4Index, p5Index).

Definition projections (mapped : list ChartPoint.t) (fibRatio : FibRatio)
           (xScale yScale : Q -> Q) : option Projection.t :=
  match mapped with
  | p0 :: p1 :: p2 :: _ =>
      let w1Height := ChartPoint.price p1 - ChartPoint.price p0 in
      let w3Target := ChartPoint.price p2 + (w1Height * 1.618) in
      let w4Target :=
        w3Target
        - ((w3Target - ChartPoint.price p2) * ratio_value fibRatio) in
      let w5Target := w4Target + w1Height in
      let '(p3Index, p4Index, p5Index) := projectedIndices p0 p1 p2 in
      let X := fun i : Z => xScale (inject_Z i) in
      Some (Projection.mk
              (Projection.mkPoint (X p3Index) (yScale w3Target) w3Target)
              (Projection.mkPoint (X p4Index) (yScale w4Target) w4Target)
              (Projection.mkPoint (X p5Index) (yScale w5Target) w5Target)
              [Projection.mkLine (X (ChartPoint.index p2))
                                 (yScale (ChartPoint.price p2))
                                 (X p3Index) (yScale w3Target);
               Projection.mkLine (X p3Index) (yScale w3Target)
                                 (X p4Index) (yScale w4Target);
               Projection.mkLine (X p4Index) (yScale w4Target)
                                 (X p5Index) (yScale w5Target)])
  | _ => None
  end.

End SmartChartUI.

(** ** components/StockAnalyzer.tsx : history and watchlist *)

Module StockAnalyzer.

Definition MAX_BARS : nat := 3000.

(** The updater of [setData] in [handleLoadMore]. *)
Definition mergeHistory (parsedData prev : list CandleData.t)
  : list CandleData.t :=
  let existingDates := map CandleData.date prev in
  let uniqueNewData :=
    filter (fun d => negb (existsb (String.eqb (CandleData.date d))
                                   existingDates))
           parsedData in
  let combined := uniqueNewData ++ prev in
  if (MAX_BARS <? List.length combined)%nat
  then skipn (List.length combined - MAX_BARS) combined
  else combined.

(** The data after [handleLoadMore] received [parsedData]; an empty batch
    leaves the data alone. *)
Definition loadedMore (parsedData prev : list CandleData.t)
  : list CandleData.t :=
  match parsedData with
  | [] => prev
  | _ => mergeHistory parsedData prev
  end.

Definition toggleWatchlist (sym : string) (prev : list string)
  : list string :=
  if String.eqb sym "" then prev
  else if existsb (String.eqb sym) prev
  then filter (fun s => negb (String.eqb s sym)) prev
  else prev ++ [sym].

Definition removeFromWatchlist (sym : string) (prev : list string)
  : list string :=
  filter (fun s => negb (String.eqb s sym)) prev.

End StockAnalyzer.

(** ** components/WaveChart.tsx : the schematic wave chart *)

Module WaveChart.

Inductive LineType := solid | dashed.

(** A label is a fixed text or the template [4 (${selectedRatio})]. *)
Inductive Label := Text (s : string) | Wave4 (ratio : Q).

Module DataPoint.
Record t := mk { x : Q; y : Q; label : Label; type : LineType }.
End DataPoint.

Definition points (inputs : WaveInputs.t) (results : CalculationResult.t)
  : list DataPoint.t :=
  if negb (CalculationResult.isValid results) then []
  else
    match WaveInputs.p0 inputs, WaveInputs.p1 inputs, WaveInputs.p2 inputs with
    | Some p0, Some p1, Some p2 =>
        let manual := CalculationResult.usingManualP3 results in
        let w3Val :=
          match manual, WaveInputs.p3 inputs with
          | true, Some p3 => p3
          | _, _ => CalculationResult.w3Gold results
          end in
        let w3Type := if manual then solid else dashed in
        let w3Label := if manual then Text "3 (Input)" else Text "3 (Proj)" in
        [DataPoint.mk 10 p0 (Text "0") solid;
         DataPoint.mk 30 p1 (Text "1") solid;
         DataPoint.mk 45 p2 (Text "2") solid;
         DataPoint.mk 70 w3Val w3Label w3Type;
         DataPoint.mk 80 (CalculationResult.w4Target results)
                      (Wave4 (CalculationResult.selectedRatio results)) dashed;
         DataPoint.mk 95 (CalculationResult.w5Target results)
                      (Text "5 (Proj)") dashed]
    | _, _, _ => []
    end.

Module ViewBox.
Record t := mk { yMin : Q; yMax : Q; yRange : Q }.
End ViewBox.



Definition scaleY (vb : ViewBox.t) (val : Q) : Q :=
  100 - ((val - ViewBox.yMin vb) / ViewBox.yRange vb) * 100.

End WaveChart.

(** ** components/CandleChart.tsx : the small candle chart *)

Module CandleChart.

Module Node.
Record t := mk {
  x : Q;
  yBody : Q;
  hBody : Q;
  yWickTop : Q;
  yWickBottom : Q;
  color : string;
  candleWidth : Q;
  raw : CandleData.t
}.
End Node.

(** [scaleY] for the extent [minPrice .. maxPrice]. *)
Definition scaleY (minPrice maxPrice : Q) (price : Q) : Q :=
  let range := maxPrice - minPrice in
  let padding := range * 0.1 in
  100 - ((price - (minPrice - padding)) / (range + padding * 2)) * 100.

Definition minPrice (d0 : CandleData.t) (ds : list CandleData.t) : Q :=
  fold_left Math_min (map CandleData.low ds) (CandleData.low d0).

Definition maxPrice (d0 : CandleData.t) (ds : list CandleData.t) : Q :=
  fold_left Math_max (map CandleData.high ds) (CandleData.high d0).

(** [candles] of the memo; empty data gives no nodes. *)
Definition candles (data : list CandleData.t) : list Node.t :=
  match data with
  | [] => []
  | d0 :: ds =>
      let lo := minPrice d0 ds in
      let hi := maxPrice d0 ds in
      let n := inject_Z (Z.of_nat (List.length data)) in
      let candleWidth := (100 / n) * 0.7 in
      let gap := (100 / n) * 0.3 in
      map (fun id : nat * CandleData.t =>
             let i := inject_Z (Z.of_nat (fst id)) in
             let d := snd id in
             let x := i * (100 / n) + gap / 2 in
             let yOpen := scaleY lo hi (CandleData.open d) in
             let yClose := scaleY lo hi (CandleData.close d) in
             let yHigh := scaleY lo hi (CandleData.high d) in
             let yLow := scaleY lo hi (CandleData.low d) in
             let isUp := num_ge (CandleData.close d) (CandleData.open d) in
             let color := (if isUp then "#ef4444" else "#10b981")%string in
             Node.mk x (Math_min yOpen yClose)
                     (Math_max 0.5 (Qabs (yClose - yOpen)))
                     yHigh yLow color candleWidth d)
          (combine (seq 0 (List.length data)) data)
  end.

End CandleChart.

(** ** Further specification-side vocabulary *)

(** The closes of the [N] bars ending at bar [i]:
    [data[i-N+1], ..., data[i]]. *)
Definition window_closes (data : list CandleData.t) (i N : Z) : list Q :=
  map CandleData.close
      (firstn (Z.to_nat N) (skipn (Z.to_nat (i - N + 1)) data)).

(** The extent [m .. M] spans a visible bar: its low, its high and, when
    the moving average is shown, the average at the bar. *)
Definition extent_covers (cfg : SmartChart.Config) (m M : Q)
           (b : SmartChart.VisibleBar) : Prop :=
  m <= CandleData.low (SmartChart.candle b)
  /\ CandleData.high (SmartChart.candle b) <= M
  /\ (SmartChart.granvilleEnabled cfg = true ->
      forall ma, SmartChart.bar_maValue b = Some ma -> m <= ma /\ ma <= M).

(** A candle whose open and close lie between its low and its high. *)
Definition well_formed_candle (d : CandleData.t) : Prop :=
  CandleData.low d <= CandleData.open d
  /\ CandleData.open d <= CandleData.high d
  /\ CandleData.low d <= CandleData.close d
  /\ CandleData.close d <= CandleData.high d.

(** The roles of the marked pivots are P0, P1, P2 in this order. *)
Definition roles_in_order (pts : list ChartPoint.t) : Prop :=
  map ChartPoint.type pts = firstn (List.length pts) [Tp0; Tp1; Tp2].

Definition selection_in_range (st : SmartChart.State) (dataLength : Z)
  : Prop :=
  match SmartChart.selection st with
  | Some i => (0 <= i < dataLength)%Z
  | None => True
  end.

(** A pivot taken from the candle at its index: it carries that candle's
    date, and its price is the candle's high for P1 and its low for P0 and
    P2. *)
Definition pivot_of_candle (data : list CandleData.t) (p : ChartPoint.t)
  : Prop :=
  exists d, js_get data (ChartPoint.index p) = Some d
            /\ CandleData.date d = ChartPoint.date p
            /\ ChartPoint.price p
               = match ChartPoint.type p with
                 | Tp1 => CandleData.high d
                 | _ => CandleData.low d
                 end.

(** What the pivot handlers keep true of the chart state over [data]. *)
Definition pivots_consistent (data : list CandleData.t)
           (st : SmartChart.State) : Prop :=
  (List.length (SmartChart.points st) <= 3)%nat
  /\ roles_in_order (SmartChart.points st)
  /\ Forall (pivot_of_candle data) (SmartChart.points st)
  /\ selection_in_range st (SmartChart.len data).

(** The user actions on the pivots of a chart. *)
Inductive PivotAction :=
| Click (x svgWidth : Q)
| Confirm
| Undo
| Clear.

Definition pivot_step (data : list CandleData.t) (st : SmartChart.State)
           (a : PivotAction) : option SmartChart.State :=
  match a with
  | Click x svgWidth =>
      Some (SmartChartUI.handleSvgClick st (SmartChart.len data)
                                        false false x svgWidth)
  | Confirm => SmartChartUI.confirmSetPoint st data
  | Undo => Some (SmartChartUI.handleUndo st)
  | Clear => Some (SmartChartUI.handleClear st)
  end.

(** A sequence of actions; [None] as soon as one of them throws. *)
Fixpoint pivot_run (data : list CandleData.t) (st : SmartChart.State)
         (actions : list PivotAction) : option SmartChart.State :=
  match actions with
  | [] => Some st
  | a :: rest =>
      match pivot_step data st a with
      | Some st' => pivot_run data st' rest
      | None => None
      end
  end.

(** * Properties *)

(** ** Boolean tests against the order of [Q] *)

Lemma num_le_true (a b : Q) : num_le a b = true <-> a <= b.
Proof. unfold num_le. apply Qle_bool_iff. Qed.

Lemma num_le_false (a b : Q) : num_le a b = false <-> b < a.
Proof.
  unfold num_le. split; intro H.
  - apply Qnot_le_lt. intro Hle. apply Qle_bool_iff in Hle. congruence.
  - destruct (Qle_bool a b) eqn:E; [|reflexivity].
    apply Qle_bool_iff in E. exfalso. apply (Qlt_not_le _ _ H E).
Qed.

Lemma num_ge_true (a b : Q) : num_ge a b = true <-> b <= a.
Proof. apply num_le_true. Qed.

Lemma num_ge_false (a b : Q) : num_ge a b = false <-> a < b.
Proof. apply num_le_false. Qed.

Lemma num_lt_true (a b : Q) : num_lt a b = true <-> a < b.
Proof.
  unfold num_lt. rewrite negb_true_iff. apply (num_le_false b a).
Qed.

Lemma num_gt_true (a b : Q) : num_gt a b = true <-> b < a.
Proof.
  unfold num_gt. rewrite negb_true_iff. apply (num_le_false a b).
Qed.

Lemma num_lt_false (a b : Q) : num_lt a b = false <-> b <= a.
Proof.
  unfold num_lt. rewrite negb_false_iff. apply (num_le_true b a).
Qed.

Lemma num_gt_false (a b : Q) : num_gt a b = false <-> a <= b.
Proof.
  unfold num_gt. rewrite negb_false_iff. apply (num_le_true a b).
Qed.

(** ** The projection engine *)

Section Projection.
Import CalculationResult.
Variables (P0 P1 P2 : Q) (P3 cur : option Q).
Variable r : FibRatio.
Variable prev : CalculationResult.t.

Let res := Calculator.calculate (complete_inputs P0 P1 P2 P3 cur) r prev.

(** A valid wave structure runs the effect through to its last
    [setResult]. *)
Lemma calculate_valid :
  P0 < P2 -> P2 < P1 ->
  match P3 with Some v => P2 < v | None => True end ->
  res =
  let w1 := P1 - P0 in
  let gold := P2 + w1 * 1.618 in
  let peak := match P3 with Some v => v | None => gold end in
  let w4 := peak - (peak - P2) * ratio_value r in
  mk true None w1 ((P1 - P2) / w1 * 100) (P2 + w1) gold w4 (w4 + w1)
     (ratio_value r) (supplied P3).
Proof.
  intros H02 H21 H3.
  assert (H01 : P0 < P1) by (eapply Qlt_trans; eassumption).
  unfold res, Calculator.calculate, complete_inputs; simpl.
  unfold Calculator.compute.
  rewrite (proj2 (num_le_false P1 P0) H01).
  rewrite (proj2 (num_le_false P2 P0) H02).
  rewrite (proj2 (num_ge_false P2 P1) H21).
  destruct P3 as [v|]; simpl.
  - rewrite (proj2 (num_le_false v P2) H3). reflexivity.
  - reflexivity.
Qed.

(** What the effect does at each validation that does not hold. *)
Lemma calculate_reports :
  forall c, first_in (WaveCheck.fails P0 P1 P2 P3) WaveCheck.order (Some c) ->
            res = invalidate prev (Some (WaveCheck.message c)).
Proof.
  intros c (before & after & Hord & Hbefore & Hfail).
  unfold res, Calculator.calculate, complete_inputs; simpl.
  unfold Calculator.compute, WaveCheck.order in *.
  assert (Hnn : forall P : Prop, (P \/ ~ P) -> ~ ~ P -> P) by tauto.
  assert (dec_lt : forall a b : Q, a < b \/ ~ a < b).
  { intros a b. destruct (Qlt_le_dec a b) as [H|H]; [left; exact H|].
    right. apply Qle_not_lt. exact H. }
  destruct before as [|b0 before].
  { injection Hord as <- _. simpl in Hfail. unfold WaveCheck.fails in Hfail.
    simpl in Hfail. apply Qnot_lt_le in Hfail.
    rewrite (proj2 (num_le_true P1 P0) Hfail). reflexivity. }
  injection Hord as <- Hord. inversion Hbefore as [|? ? H1 Hb1]; subst.
  apply Hnn in H1; [|apply dec_lt]. simpl in H1.
  rewrite (proj2 (num_le_false P1 P0) H1).
  destruct before as [|b1 before].
  { injection Hord as <- _. unfold WaveCheck.fails in Hfail. simpl in Hfail.
    apply Qnot_lt_le in Hfail.
    rewrite (proj2 (num_le_true P2 P0) Hfail). reflexivity. }
  injection Hord as <- Hord. inversion Hb1 as [|? ? H2 Hb2]; subst.
  apply Hnn in H2; [|apply dec_lt]. simpl in H2.
  rewrite (proj2 (num_le_false P2 P0) H2).
  destruct before as [|b2 before].
  { injection Hord as <- _. unfold WaveCheck.fails in Hfail. simpl in Hfail.
    apply Qnot_lt_le in Hfail.
    rewrite (proj2 (num_ge_true P2 P1) Hfail). reflexivity. }
  injection Hord as <- Hord. inversion Hb2 as [|? ? H3 Hb3]; subst.
  apply Hnn in H3; [|apply dec_lt]. simpl in H3.
  rewrite (proj2 (num_ge_false P2 P1) H3).
  destruct before as [|b3 before].
  { injection Hord as <- _. unfold WaveCheck.fails in Hfail. simpl in Hfail.
    destruct P3 as [v|]; [|tauto].
    apply Qnot_lt_le in Hfail.
    rewrite (proj2 (num_le_true v P2) Hfail). reflexivity. }
  injection Hord as _ Hord. destruct before; discriminate.
Qed.

End Projection.

(** Some validation fails first, or all of them hold. *)
Lemma validation_decided (P0 P1 P2 : Q) (P3 : option Q) :
  exists o, first_in (WaveCheck.fails P0 P1 P2 P3) WaveCheck.order o.
Proof.
  unfold WaveCheck.order, WaveCheck.fails.
  destruct (Qlt_le_dec P0 P1) as [H1|H1].
  2:{ exists (Some WaveCheck.P1_above_P0), [],
        [WaveCheck.P2_above_P0; WaveCheck.P2_below_P1; WaveCheck.P3_above_P2].
      repeat split; auto.
      simpl. apply Qle_not_lt. exact H1. }
  destruct (Qlt_le_dec P0 P2) as [H2|H2].
  2:{ exists (Some WaveCheck.P2_above_P0), [WaveCheck.P1_above_P0],
        [WaveCheck.P2_below_P1; WaveCheck.P3_above_P2].
      repeat split; simpl; auto using Qle_not_lt. }
  destruct (Qlt_le_dec P2 P1) as [H3|H3].
  2:{ exists (Some WaveCheck.P2_below_P1),
        [WaveCheck.P1_above_P0; WaveCheck.P2_above_P0],
        [WaveCheck.P3_above_P2].
      repeat split; simpl; auto 6 using Qle_not_lt. }
  assert (H4 : (exists v, P3 = Some v /\ v <= P2)
               \/ match P3 with Some v => P2 < v | None => True end).
  { destruct P3 as [v|]; [|right; exact I].
    destruct (Qlt_le_dec P2 v); [right; assumption | left; eauto]. }
  destruct H4 as [(v & -> & H4)|H4].
  - exists (Some WaveCheck.P3_above_P2),
      [WaveCheck.P1_above_P0; WaveCheck.P2_above_P0; WaveCheck.P2_below_P1],
      [].
    repeat split; simpl; auto 6 using Qle_not_lt.
  - exists None. simpl. repeat constructor; simpl; auto.
Qed.

(** A failed run keeps every numeric output of the previous result. *)
Lemma invalid_keeps_outputs (inputs : WaveInputs.t) (r : FibRatio)
      (prev : CalculationResult.t) :
  CalculationResult.isValid (Calculator.calculate inputs r prev) = false ->
  Calculator.outputs (Calculator.calculate inputs r prev)
  = Calculator.outputs prev.
Proof.
  unfold Calculator.calculate, Calculator.compute.
  destruct (WaveInputs.p0 inputs), (WaveInputs.p1 inputs),
    (WaveInputs.p2 inputs); try reflexivity.
  repeat match goal with
         | |- context [if ?b then _ else _] => destruct b
         end; try reflexivity; simpl; discriminate.
Qed.

(** Whether a run succeeds does not depend on the previous result. *)
Lemma validity_independent (inputs : WaveInputs.t) (r : FibRatio)
      (prev prev' : CalculationResult.t) :
  CalculationResult.isValid (Calculator.calculate inputs r prev)
  = CalculationResult.isValid (Calculator.calculate inputs r prev').
Proof.
  unfold Calculator.calculate, Calculator.compute.
  destruct (WaveInputs.p0 inputs), (WaveInputs.p1 inputs),
    (WaveInputs.p2 inputs); try reflexivity.
  repeat match goal with
         | |- context [if ?b then _ else _] => destruct b
         end; reflexivity.
Qed.

Lemma run_app (evs1 evs2 : list (WaveInputs.t * FibRatio))
      (init : CalculationResult.t) :
  Calculator.run (evs1 ++ evs2) init
  = Calculator.run evs2 (Calculator.run evs1 init).
Proof. unfold Calculator.run. apply fold_left_app. Qed.

(** A run of failing computations leaves the outputs where they were. *)
Lemma failing_run_keeps_outputs (evs : list (WaveInputs.t * FibRatio)) :
  forall st,
    Forall (fun ev =>
              CalculationResult.isValid
                (Calculator.calculate (fst ev) (snd ev)
                                      Calculator.INITIAL_RESULT) = false) evs ->
    Calculator.outputs (Calculator.run evs st) = Calculator.outputs st.
Proof.
  induction evs as [|ev evs IH]; intros st Hall; [reflexivity|].
  inversion Hall as [|? ? Hev Hrest]; subst.
  change (Calculator.run (ev :: evs) st)
    with (Calculator.run evs (Calculator.calculate (fst ev) (snd ev) st)).
  rewrite (IH _ Hrest).
  apply invalid_keeps_outputs.
  rewrite (validity_independent _ _ st Calculator.INITIAL_RESULT). exact Hev.
Qed.

(** C1: for P0 < P2 < P1, a ratio of the three-way enumeration and an
    optional P3 > P2, the engine returns a valid result whose fields are
    w1Height = P1 - P0, w2RetracementPct = (P1 - P2) / (P1 - P0) * 100,
    w3Min = P2 + (P1 - P0), w3Gold = P2 + (P1 - P0) * 1.618,
    w4Target = peak - (peak - P2) * r with peak the supplied P3 or else
    w3Gold, w5Target = w4Target + (P1 - P0), selectedRatio = r, and
    usingManualP3 true exactly when P3 is supplied. *)
Theorem projection_valid_result
        (P0 P1 P2 : Q) (P3 cur : option Q) (r : FibRatio)
        (prev : CalculationResult.t) :
  P0 < P2 -> P2 < P1 ->
  (forall v, P3 = Some v -> v > P2) ->
  let res := Calculator.calculate (complete_inputs P0 P1 P2 P3 cur) r prev in
  let peak := activeW3Peak P3 res in
  In (ratio_value r) [0.382; 0.5; 0.618]
  /\ CalculationResult.isValid res = true
  /\ CalculationResult.w1Height res = P1 - P0
  /\ CalculationResult.w2RetracementPct res = (P1 - P2) / (P1 - P0) * 100
  /\ CalculationResult.w3Min res = P2 + (P1 - P0)
  /\ CalculationResult.w3Gold res = P2 + (P1 - P0) * 1.618
  /\ CalculationResult.w4Target res = peak - (peak - P2) * ratio_value r
  /\ CalculationResult.w5Target res
     = CalculationResult.w4Target res + (P1 - P0)
  /\ CalculationResult.selectedRatio res = ratio_value r
  /\ (CalculationResult.usingManualP3 res = true <-> exists v, P3 = Some v).
Proof.
  intros H02 H21 H3 res peak.
  assert (E := calculate_valid P0 P1 P2 P3 cur r prev H02 H21).
  fold res in E. unfold peak. rewrite E.
  - split.
    { destruct r; simpl; auto. }
    destruct P3 as [v|]; simpl; repeat split; eauto;
      try discriminate; intros [? ?]; discriminate.
  - destruct P3 as [v|]; [apply H3; reflexivity | exact I].
Qed.

Lemma projection_valid_result_witness :
  let res := Calculator.calculate
               (complete_inputs 100 150 120 (Some 200) None) R0382
               Calculator.INITIAL_RESULT in
  CalculationResult.isValid res = true
  /\ CalculationResult.usingManualP3 res = true
  /\ CalculationResult.w4Target res == 169.44.
Proof.
  destruct (projection_valid_result 100 150 120 (Some 200) None R0382
              Calculator.INITIAL_RESULT)
    as (_ & Hv & _ & _ & _ & _ & H4 & _ & _ & Hm).
  - reflexivity.
  - reflexivity.
  - intros v Hv. injection Hv as <-. reflexivity.
  - split; [exact Hv|]. split.
    + apply Hm. exists 200. reflexivity.
    + rewrite H4. reflexivity.
Defined.

(** C2: the validations are taken in the order P1 > P0, P2 > P0, P2 < P1,
    P3 > P2 (when P3 is supplied).  For every input the engine returns a
    result: with P0, P1 or P2 missing no validation runs and no reason is
    reported; otherwise the first validation that fails fixes the single
    reported reason with isValid = false, and when none fails the result is
    valid without a reason. *)
Theorem validation_first_failure_wins
        (inputs : WaveInputs.t) (r : FibRatio) (prev : CalculationResult.t) :
  let res := Calculator.calculate inputs r prev in
  match WaveInputs.p0 inputs, WaveInputs.p1 inputs, WaveInputs.p2 inputs with
  | Some P0, Some P1, Some P2 =>
      let failing := WaveCheck.fails P0 P1 P2 (WaveInputs.p3 inputs) in
      (exists o, first_in failing WaveCheck.order o)
      /\ (forall c, first_in failing WaveCheck.order (Some c) ->
                    CalculationResult.isValid res = false
                    /\ CalculationResult.error res
                       = Some (WaveCheck.message c))
      /\ (first_in failing WaveCheck.order None ->
          CalculationResult.isValid res = true
          /\ CalculationResult.error res = None)
  | _, _, _ =>
      CalculationResult.isValid res = false
      /\ CalculationResult.error res = None
  end.
Proof.
  destruct inputs as [i0 i1 i2 i3 icur]; cbv zeta; simpl.
  destruct i0 as [P0|], i1 as [P1|], i2 as [P2|];
    try (split; reflexivity).
  change (WaveInputs.mk (Some P0) (Some P1) (Some P2) i3 icur)
    with (complete_inputs P0 P1 P2 i3 icur).
  split; [apply validation_decided|]. split.
  - intros c Hc.
    rewrite (calculate_reports P0 P1 P2 i3 icur r prev c Hc).
    split; reflexivity.
  - intros Hnone. unfold first_in, WaveCheck.order in Hnone.
    assert (dec_lt : forall a b : Q, ~ ~ a < b -> a < b).
    { intros a b H. destruct (Qlt_le_dec a b) as [Hl|Hl]; [exact Hl|].
      exfalso. apply H. apply Qle_not_lt. exact Hl. }
    inversion Hnone as [|? ? H1 Hn1]; subst.
    inversion Hn1 as [|? ? H2 Hn2]; subst.
    inversion Hn2 as [|? ? H3 Hn3]; subst.
    inversion Hn3 as [|? ? H4 _]; subst.
    unfold WaveCheck.fails in *. simpl in *.
    apply dec_lt in H2, H3.
    rewrite (calculate_valid P0 P1 P2 i3 icur r prev H2 H3).
    + split; reflexivity.
    + destruct i3 as [v|]; [apply dec_lt; exact H4 | exact I].
Qed.

Lemma validation_first_failure_wins_witness :
  let res := Calculator.calculate (complete_inputs 100 150 95 None None)
                                  R05 Calculator.INITIAL_RESULT in
  CalculationResult.isValid res = false
  /\ CalculationResult.error res = Some Calculator.ERR_P2_LOW.
Proof.
  destruct (validation_first_failure_wins
              (complete_inputs 100 150 95 None None) R05
              Calculator.INITIAL_RESULT) as (_ & Hfail & _).
  apply (Hfail WaveCheck.P2_above_P0).
  exists [WaveCheck.P1_above_P0],
    [WaveCheck.P2_below_P1; WaveCheck.P3_above_P2].
  split; [reflexivity|]. split.
  - constructor; [|constructor]. intro H. apply H. reflexivity.
  - intro H. discriminate H.
Defined.

(** C3 as stated (w3Gold = 180.9, w4Target = 150.45, w5Target = 200.45 on
    P0=100, P1=150, P2=120, r=0.5 without P3) does not hold: the 1.618
    extension is measured from P2, not from P0. *)
Lemma scenarioA_stated_values_refuted :
  ~ (CalculationResult.w1Height Examples.resultA == 50
     /\ CalculationResult.w2RetracementPct Examples.resultA == 60
     /\ CalculationResult.w3Min Examples.resultA == 170
     /\ CalculationResult.w3Gold Examples.resultA == 180.9
     /\ CalculationResult.w4Target Examples.resultA == 150.45
     /\ CalculationResult.w5Target Examples.resultA == 200.45).
Proof.
  intros (_ & _ & _ & Hgold & _). vm_compute in Hgold. discriminate Hgold.
Qed.

(** C3 (amended): on P0=100, P1=150, P2=120, r=0.5, P3 not supplied, the
    engine produces w1Height=50, w2RetracementPct=60, w3Min=170,
    w3Gold=200.9, w4Target=160.45 and w5Target=210.45. *)
Theorem scenarioA_values :
  CalculationResult.isValid Examples.resultA = true
  /\ CalculationResult.w1Height Examples.resultA == 50
  /\ CalculationResult.w2RetracementPct Examples.resultA == 60
  /\ CalculationResult.w3Min Examples.resultA == 170
  /\ CalculationResult.w3Gold Examples.resultA == 200.9
  /\ CalculationResult.w4Target Examples.resultA == 160.45
  /\ CalculationResult.w5Target Examples.resultA == 210.45.
Proof. repeat split. Qed.

(** ** Wave 4 and wave 5 *)

(** In exact arithmetic the two targets are one wave-1 height apart. *)
Lemma wave5_minus_wave4_exact
      (P0 P1 P2 : Q) (P3 cur : option Q) (r : FibRatio)
      (prev : CalculationResult.t) :
  P0 < P2 -> P2 < P1 ->
  match P3 with Some v => v > P2 | None => True end ->
  let res := Calculator.calculate (complete_inputs P0 P1 P2 P3 cur) r prev in
  let peak := activeW3Peak P3 res in
  CalculationResult.w4Target res = peak - (peak - P2) * ratio_value r
  /\ CalculationResult.w5Target res - CalculationResult.w4Target res
     == P1 - P0.
Proof.
  intros H02 H21 H3 res peak.
  assert (E := calculate_valid P0 P1 P2 P3 cur r prev H02 H21 H3).
  fold res in E. unfold peak. rewrite E. simpl. split.
  - destruct P3; reflexivity.
  - ring.
Qed.

(** The order of doubles: [x < y] excludes [y <= x] (and both are false
    on [NaN]). *)
Lemma compare_cont_swap (m n : positive) :
  PosDef.Pos.compare_cont Eq n m = CompOpp (PosDef.Pos.compare_cont Eq m n).
Proof.
  change PosDef.Pos.compare_cont with Pos.compare_cont.
  rewrite (Pos.compare_cont_antisym m n Eq). reflexivity.
Qed.

Lemma SFcompare_lt_gt (x y : SpecFloat.spec_float) :
  SpecFloat.SFcompare x y = Some Lt -> SpecFloat.SFcompare y x = Some Gt.
Proof.
  destruct x as [sx|sx| |sx mx ex], y as [sy|sy| |sy my ey]; simpl;
    try discriminate;
    try (destruct sx; intro H; try discriminate; reflexivity);
    try (destruct sy; intro H; try discriminate; reflexivity);
    try (destruct sx, sy; intro H; try discriminate; reflexivity).
  destruct sx, sy; try discriminate; try reflexivity;
    rewrite (Z.compare_antisym ex ey), (compare_cont_swap mx my);
    destruct (ex ?= ey)%Z; simpl; try discriminate; try reflexivity;
    destruct (PosDef.Pos.compare_cont Eq mx my); simpl;
    try discriminate; reflexivity.
Qed.

Lemma double_lt_not_ge (x y : PrimFloat.float) :
  PrimFloat.ltb x y = true -> PrimFloat.leb y x = false.
Proof.
  rewrite FloatAxioms.ltb_spec, FloatAxioms.leb_spec.
  unfold SpecFloat.SFltb, SpecFloat.SFleb.
  destruct (SpecFloat.SFcompare (FloatOps.Prim2SF x) (FloatOps.Prim2SF y))
    as [[| |]|] eqn:E; try discriminate.
  intros _. rewrite (SFcompare_lt_gt _ _ E). reflexivity.
Qed.

Section DoubleArithmetic.
Import PrimFloat.
Local Open Scope float_scope.

(** On doubles a structure that passes the four checks gets the valid
    result, field by field the expressions of the source. *)
#[warnings="-inexact-float"]
Lemma calculate_valid_double
      (P0 P1 P2 : float) (P3 cur : option float) (r : FibRatio)
      (prev : CalculatorDouble.CalculationResult) :
  (P0 <? P1) = true -> (P0 <? P2) = true -> (P2 <? P1) = true ->
  match P3 with Some v => (P2 <? v) = true | None => True end ->
  CalculatorDouble.calculate
    (CalculatorDouble.complete_inputs P0 P1 P2 P3 cur) r prev
  = let w1Height := P1 - P0 in
    let w3Gold := P2 + (w1Height * 1.618) in
    let peak := match P3 with Some v => v | None => w3Gold end in
    let w4Target := peak - ((peak - P2) * CalculatorDouble.ratio_value r) in
    CalculatorDouble.mkResult
      true None w1Height (((P1 - P2) / w1Height) * 100) (P2 + w1Height)
      w3Gold w4Target (w4Target + w1Height) (CalculatorDouble.ratio_value r)
      (match P3 with Some _ => true | None => false end).
Proof.
  intros H01 H02 H21 H3.
  unfold CalculatorDouble.calculate, CalculatorDouble.complete_inputs,
    CalculatorDouble.compute, CalculatorDouble.num_le,
    CalculatorDouble.num_ge; simpl.
  rewrite (double_lt_not_ge _ _ H01), (double_lt_not_ge _ _ H02),
    (double_lt_not_ge _ _ H21).
  destruct P3 as [v|]; [rewrite (double_lt_not_ge _ _ H3)|]; reflexivity.
Qed.

(** C5 as stated, read on the doubles the program computes with, does not
    hold: P0 = 10, P1 = 20, P2 = 15 and r = 0.5 satisfy P0 < P1 and
    P0 < P2 < P1, the result is valid, and w5Target - w4Target is
    10.000000000000004, which is not P1 - P0 = 10. *)
Lemma wave5_minus_wave4_exact_refuted :
  let res := CalculatorDouble.result_10_20_15 in
  (10 <? 20) = true /\ (10 <? 15) = true /\ (15 <? 20) = true
  /\ CalculatorDouble.isValid res = true
  /\ CalculatorDouble.w5Target res - CalculatorDouble.w4Target res
     = 0x1.4000000000002p+3
  /\ (CalculatorDouble.w5Target res - CalculatorDouble.w4Target res
      =? 20 - 10) = false.
Proof. vm_compute. repeat split. Qed.

(** C5 (amended): for doubles P0 < P1 and P0 < P2 < P1, each ratio of the
    enumeration, and the wave-3 peak being a supplied P3 > P2 or else the
    projected w3Gold, the result is valid, w4Target is the double
    peak - (peak - P2) * r and w5Target is the double w4Target + (P1 - P0).
    The difference w5Target - w4Target is exactly P1 - P0 when the same
    formulas are evaluated in exact arithmetic (not, in general, on the
    doubles). *)
Theorem wave4_wave5_as_computed
        (P0 P1 P2 : float) (P3 cur : option float) (r : FibRatio)
        (prev : CalculatorDouble.CalculationResult) :
  (P0 <? P1) = true -> (P0 <? P2) = true -> (P2 <? P1) = true ->
  match P3 with Some v => (P2 <? v) = true | None => True end ->
  let res :=
    CalculatorDouble.calculate
      (CalculatorDouble.complete_inputs P0 P1 P2 P3 cur) r prev in
  let peak := CalculatorDouble.activeW3Peak P3 res in
  CalculatorDouble.isValid res = true
  /\ CalculatorDouble.w4Target res
     = peak - (peak - P2) * CalculatorDouble.ratio_value r
  /\ CalculatorDouble.w5Target res
     = CalculatorDouble.w4Target res + (P1 - P0)
  /\ forall (Q0 Q1 Q2 : Q) (Q3 Qcur : option Q)
            (Qprev : CalculationResult.t),
      (Q0 < Q1)%Q -> (Q0 < Q2)%Q -> (Q2 < Q1)%Q ->
      match Q3 with Some v => (v > Q2)%Q | None => True end ->
      let exact :=
        Calculator.calculate (complete_inputs Q0 Q1 Q2 Q3 Qcur) r Qprev in
      (CalculationResult.w5Target exact
       - CalculationResult.w4Target exact == Q1 - Q0)%Q.
Proof.
  intros H01 H02 H21 H3 res peak.
  assert (E := calculate_valid_double P0 P1 P2 P3 cur r prev H01 H02 H21 H3).
  fold res in E. unfold peak. rewrite E. cbv zeta. simpl.
  split; [reflexivity|]. split; [destruct P3; reflexivity|].
  split; [reflexivity|].
  intros Q0 Q1 Q2 Q3 Qcur Qprev _ G02 G21 G3.
  exact (proj2 (wave5_minus_wave4_exact Q0 Q1 Q2 Q3 Qcur r Qprev G02 G21 G3)).
Qed.

Lemma wave4_wave5_as_computed_witness :
  let res := CalculatorDouble.result_10_20_15 in
  CalculatorDouble.isValid res = true
  /\ CalculatorDouble.w5Target res
     = CalculatorDouble.w4Target res + (20 - 10).
Proof.
  destruct (wave4_wave5_as_computed 10 20 15 None None R05
                                    CalculatorDouble.INITIAL_RESULT)
    as (Hv & _ & H5 & _).
  - vm_compute. reflexivity.
  - vm_compute. reflexivity.
  - vm_compute. reflexivity.
  - exact I.
  - split; [exact Hv | exact H5].
Defined.
End DoubleArithmetic.

(** C10 as stated gives every output the initial value zero / false; the
    ratio field of the initial result is the default ratio 0.382. *)
Lemma initial_outputs_stated_refuted :
  ~ (CalculationResult.w1Height Calculator.INITIAL_RESULT == 0
     /\ CalculationResult.w2RetracementPct Calculator.INITIAL_RESULT == 0
     /\ CalculationResult.w3Min Calculator.INITIAL_RESULT == 0
     /\ CalculationResult.w3Gold Calculator.INITIAL_RESULT == 0
     /\ CalculationResult.w4Target Calculator.INITIAL_RESULT == 0
     /\ CalculationResult.w5Target Calculator.INITIAL_RESULT == 0
     /\ CalculationResult.selectedRatio Calculator.INITIAL_RESULT == 0
     /\ CalculationResult.usingManualP3 Calculator.INITIAL_RESULT = false).
Proof.
  intros (_ & _ & _ & _ & _ & _ & Hratio & _). discriminate Hratio.
Qed.

(** C10 (amended): the result starts with the six wave values zero, the
    ratio 0.382 and the manual-P3 flag false; a run of the engine that
    fails validation, or finds P0, P1 or P2 missing, changes only the
    validity flag and the reason, so after any number of failing runs every
    numeric field still has the value of the last successful computation
    (or the initial one). *)
Theorem outputs_unchanged_on_error
        (inputs : WaveInputs.t) (r : FibRatio) (prev : CalculationResult.t)
        (earlier later : list (WaveInputs.t * FibRatio)) :
  CalculationResult.isValid (Calculator.calculate inputs r prev) = false ->
  Forall (fun ev =>
            CalculationResult.isValid
              (Calculator.calculate (fst ev) (snd ev)
                                    Calculator.INITIAL_RESULT) = false)
         later ->
  Calculator.outputs Calculator.INITIAL_RESULT
  = (0, 0, 0, 0, 0, 0, 0.382, false)
  /\ Calculator.outputs (Calculator.calculate inputs r prev)
     = Calculator.outputs prev
  /\ ((WaveInputs.p0 inputs = None \/ WaveInputs.p1 inputs = None
       \/ WaveInputs.p2 inputs = None) ->
      Calculator.calculate inputs r prev
      = CalculationResult.invalidate prev None)
  /\ Calculator.outputs
       (Calculator.run (earlier ++ later) Calculator.INITIAL_RESULT)
     = Calculator.outputs (Calculator.run earlier Calculator.INITIAL_RESULT).
Proof.
  intros Hinv Hlater. split; [reflexivity|]. split.
  - apply invalid_keeps_outputs. exact Hinv.
  - split.
    + unfold Calculator.calculate.
      intros [H|[H|H]]; rewrite H;
        destruct (WaveInputs.p0 inputs), (WaveInputs.p1 inputs);
        reflexivity.
    + rewrite run_app. apply failing_run_keeps_outputs. exact Hlater.
Qed.

Lemma outputs_unchanged_on_error_witness :
  Calculator.outputs
    (Calculator.calculate (complete_inputs 100 150 95 None None) R0382
                          Examples.resultA)
  = Calculator.outputs Examples.resultA
  /\ Calculator.outputs
       (Calculator.run
          ([(Examples.scenarioA, R05)]
             ++ [(complete_inputs 100 150 95 None None, R0382);
                 (Calculator.INITIAL_INPUTS, R0382)])
          Calculator.INITIAL_RESULT)
     = Calculator.outputs
         (Calculator.run [(Examples.scenarioA, R05)]
                         Calculator.INITIAL_RESULT).
Proof.
  destruct (outputs_unchanged_on_error
              (complete_inputs 100 150 95 None None) R0382 Examples.resultA
              [(Examples.scenarioA, R05)]
              [(complete_inputs 100 150 95 None None, R0382);
               (Calculator.INITIAL_INPUTS, R0382)])
    as (_ & Hstep & _ & Hrun).
  - reflexivity.
  - repeat constructor.
  - split; [exact Hstep | exact Hrun].
Defined.

(** ** The viewport *)

(** After the sequence shrinks the pan position is [max(0, length - 60)],
    whatever the zoom. *)
Lemma shrink_offset (st : SmartChart.State) (n : Z) :
  (n < SmartChart.prevDataLen st)%Z ->
  SmartChart.offset (SmartChart.onDataLength st n)
  = Math_max 0 (inject_Z n - 60)
  /\ SmartChart.zoom (SmartChart.onDataLength st n) = SmartChart.zoom st.
Proof.
  intro Hlt. unfold SmartChart.onDataLength, SmartChart.layoutEffect.
  assert (E1 : (SmartChart.prevDataLen st <? n)%Z = false)
    by (apply Z.ltb_ge; lia).
  assert (E2 : (n <? SmartChart.prevDataLen st)%Z = true)
    by (apply Z.ltb_lt; lia).
  rewrite E1, E2. unfold SmartChart.passiveEffect; simpl.
  destruct ((0 <? n)%Z && (n =? 0)%Z) eqn:E; simpl; split; reflexivity.
Qed.

(** C4 as stated (visible range [0,59] at zoom=60, offset=0 over 200
    candles, and [150,199] clamped from a nominal end 209 after panning to
    150) does not hold: the end index is the ceiling of offset + zoom. *)
Lemma scenarioD_stated_range_refuted :
  ~ (SmartChart.visibleRange Examples.scenarioD 200 = (0, 59)%Z
     /\ SmartChart.visibleRange Examples.scenarioD_panned 200 = (150, 199)%Z
     /\ Math_ceil (SmartChart.offset Examples.scenarioD_panned
                   + SmartChart.zoom Examples.scenarioD_panned) = 209%Z).
Proof.
  intros (H & _). vm_compute in H. discriminate H.
Qed.

(** C4 (amended): at zoom=60, offset=0 over 200 candles the inclusive
    visible index range is [0,60]; after panning to offset=150 it is
    [150,199], the nominal end 210 being clamped to length-1 = 199. *)
Theorem scenarioD_visible_range :
  SmartChart.offset Examples.scenarioD == 0
  /\ SmartChart.zoom Examples.scenarioD == 60
  /\ SmartChart.visibleRange Examples.scenarioD 200 = (0, 60)%Z
  /\ SmartChart.offset Examples.scenarioD_panned == 150
  /\ Math_ceil (SmartChart.offset Examples.scenarioD_panned
                + SmartChart.zoom Examples.scenarioD_panned) = 210%Z
  /\ SmartChart.visibleRange Examples.scenarioD_panned 200 = (150, 199)%Z.
Proof. repeat split. Qed.

(** C9 (the code at the failing input): a chart of 300 candles zoomed to
    15 and showing its newest candles receives a sequence of 200 candles.
    The pan position becomes 200 - 60 = 140 while the zoom stays 15, so the
    visible range is [140,155] and the newest candle, index 199, is not
    shown; at zoom 100 the range is [140,199], 60 candles and not 100. *)
Theorem shrink_reset_ignores_zoom :
  let st15 := SmartChart.onDataLength (Examples.zoomed_latest 15) 200 in
  let st100 := SmartChart.onDataLength (Examples.zoomed_latest 100) 200 in
  SmartChart.zoom st15 == 15
  /\ SmartChart.offset st15 == 140
  /\ SmartChart.visibleRange st15 200 = (140, 155)%Z
  /\ SmartChart.zoom st100 == 100
  /\ SmartChart.offset st100 == 140
  /\ SmartChart.visibleRange st100 200 = (140, 199)%Z
  /\ SmartChart.zoom (SmartChart.handleResetView st15 200) == 60
  /\ SmartChart.visibleRange (SmartChart.handleResetView st15 200) 200
     = (140, 199)%Z.
Proof. repeat split. Qed.

(** ** Pivot re-indexing *)

Section FindIndex.
Context {A : Type} (f : A -> bool).

Lemma findIndex_none (arr : list A) :
  (forall x, In x arr -> f x = false) -> findIndex f arr = (-1)%Z.
Proof.
  induction arr as [|x rest IH]; intro Hall; simpl; [reflexivity|].
  rewrite (Hall x (or_introl eq_refl)).
  rewrite IH by (intros y Hy; apply Hall; right; exact Hy).
  reflexivity.
Qed.

(** The first position that satisfies [f] is the one returned. *)
Lemma findIndex_first (arr : list A) :
  forall (n : nat) (d : A),
    nth_error arr n = Some d -> f d = true ->
    (forall m x, (m < n)%nat -> nth_error arr m = Some x -> f x = false) ->
    findIndex f arr = Z.of_nat n.
Proof.
  induction arr as [|x rest IH]; intros n d Hn Hd Hbefore.
  - destruct n; discriminate Hn.
  - destruct n as [|n]; simpl in *.
    + injection Hn as ->. rewrite Hd. reflexivity.
    + rewrite (Hbefore 0%nat x (Nat.lt_0_succ n) eq_refl).
      rewrite (IH n d Hn Hd).
      * replace (Z.of_nat n =? -1)%Z with false
          by (symmetry; apply Z.eqb_neq; lia).
        lia.
      * intros m y Hm Hy. apply (Hbefore (S m) y); [lia | exact Hy].
Qed.
End FindIndex.

Lemma js_get_nth {A : Type} (arr : list A) (j : Z) (d : A) :
  js_get arr j = Some d ->
  (0 <= j)%Z /\ nth_error arr (Z.to_nat j) = Some d.
Proof.
  unfold js_get. destruct (j <? 0)%Z eqn:E; [discriminate|].
  apply Z.ltb_ge in E. auto.
Qed.

(** With distinct dates, looking a candle's date up finds its position. *)
Lemma findIndex_date (data : list CandleData.t) (n : nat) (d : CandleData.t)
      (key : string) :
  NoDup (map CandleData.date data) ->
  nth_error data n = Some d -> CandleData.date d = key ->
  findIndex (fun c => String.eqb (CandleData.date c) key) data = Z.of_nat n.
Proof.
  intros Hnd Hn Hkey.
  apply (findIndex_first _ data n d Hn).
  - rewrite Hkey. apply String.eqb_refl.
  - intros m x Hm Hx. apply String.eqb_neq. intro Heq.
    assert (Hm' : nth_error (map CandleData.date data) m = Some key)
      by (rewrite nth_error_map, Hx; simpl; congruence).
    assert (Hn' : nth_error (map CandleData.date data) n = Some key)
      by (rewrite nth_error_map, Hn; simpl; congruence).
    assert (Hlen : (m < List.length (map CandleData.date data))%nat)
      by (apply nth_error_Some; congruence).
    pose proof (proj1 (NoDup_nth_error (map CandleData.date data)) Hnd
                      m n Hlen) as Hinj.
    rewrite Hm', Hn' in Hinj. specialize (Hinj eq_refl). lia.
Qed.

Lemma findIndex_date_absent (data : list CandleData.t) (p : ChartPoint.t) :
  date_absent data p ->
  findIndex (fun c => String.eqb (CandleData.date c) (ChartPoint.date p)) data
  = (-1)%Z.
Proof.
  intro Habs. apply findIndex_none. intros x Hx.
  apply String.eqb_neq. intro Heq. apply Habs.
  rewrite <- Heq. apply in_map. exact Hx.
Qed.

(** One pivot, re-derived against [older ++ old]: its date is found at
    the shifted position of the candle that carries it in [old], or, when
    the date is nowhere in the sequence, the stored index moves by [diff]. *)
Lemma remap_one (older old : list CandleData.t) (p : ChartPoint.t)
      (diff target : Z) :
  NoDup (map CandleData.date (older ++ old)) ->
  (exists d, js_get old (target - SmartChart.len older) = Some d
             /\ CandleData.date d = ChartPoint.date p)
  \/ (date_absent (older ++ old) p
      /\ (ChartPoint.index p + diff)%Z = target) ->
  map ChartPoint.index (SmartChart.mappedPoints [p] (older ++ old) diff)
  = [target].
Proof.
  intros Hnd [(d & Hget & Hdate) | (Habs & <-)]; simpl.
  - apply js_get_nth in Hget. destruct Hget as (Hpos & Hnth).
    unfold SmartChart.len in *.
    rewrite (findIndex_date (older ++ old)
               (List.length older
                + Z.to_nat (target - Z.of_nat (List.length older)))
               d (ChartPoint.date p) Hnd).
    + replace (_ =? -1)%Z with false by (symmetry; apply Z.eqb_neq; lia).
      simpl. f_equal. lia.
    + rewrite nth_error_app2 by lia.
      replace (_ + _ - _)%nat
        with (Z.to_nat (target - Z.of_nat (List.length older))) by lia.
      exact Hnth.
    + exact Hdate.
  - rewrite (findIndex_date_absent _ _ Habs). reflexivity.
Qed.

Lemma remap_all (older old : list CandleData.t) (diff : Z)
      (target : ChartPoint.t -> Z) (pts : list ChartPoint.t) :
  NoDup (map CandleData.date (older ++ old)) ->
  Forall (fun p =>
            (exists d, js_get old (target p - SmartChart.len older) = Some d
                       /\ CandleData.date d = ChartPoint.date p)
            \/ (date_absent (older ++ old) p
                /\ (ChartPoint.index p + diff)%Z = target p)) pts ->
  map ChartPoint.index (SmartChart.mappedPoints pts (older ++ old) diff)
  = map target pts.
Proof.
  intros Hnd Hall. induction Hall as [|p pts Hp _ IH]; [reflexivity|].
  change (SmartChart.mappedPoints (p :: pts) (older ++ old) diff)
    with (SmartChart.mappedPoints [p] (older ++ old) diff
          ++ SmartChart.mappedPoints pts (older ++ old) diff).
  rewrite map_app, (remap_one older old p diff (target p) Hnd Hp), IH.
  reflexivity.
Qed.

Lemma len_app (older old : list CandleData.t) :
  SmartChart.len (older ++ old)
  = (SmartChart.len older + SmartChart.len old)%Z.
Proof. unfold SmartChart.len. rewrite length_app. lia. Qed.

(** The render that first sees [older ++ old] works with the shift. *)
Lemma dataDiff_prepend (st : SmartChart.State) (older old : list CandleData.t) :
  SmartChart.prevDataLen st = SmartChart.len old ->
  SmartChart.dataDiff st (SmartChart.len (older ++ old))
  = SmartChart.len older
  /\ SmartChart.effectiveOffset st (SmartChart.len (older ++ old))
     == SmartChart.offset st + inject_Z (SmartChart.len older).
Proof.
  intro Hprev.
  unfold SmartChart.effectiveOffset, SmartChart.dataDiff.
  rewrite Hprev, len_app.
  destruct (SmartChart.len old <? SmartChart.len older + SmartChart.len old)%Z
    eqn:E.
  - split; [lia|]. apply Qplus_comp; [reflexivity|].
    replace (SmartChart.len older + SmartChart.len old - SmartChart.len old)%Z
      with (SmartChart.len older) by lia.
    reflexivity.
  - apply Z.ltb_ge in E.
    assert (H0 : SmartChart.len older = 0%Z)
      by (unfold SmartChart.len in *; lia).
    rewrite H0. split; [reflexivity|]. unfold inject_Z. ring.
Qed.

(** The state committed by the effects after [older] has been prepended. *)
Lemma onDataLength_prepend (st : SmartChart.State)
      (older old : list CandleData.t) :
  SmartChart.prevDataLen st = SmartChart.len old ->
  let st' := SmartChart.onDataLength st (SmartChart.len (older ++ old)) in
  SmartChart.offset st'
  == SmartChart.offset st + inject_Z (SmartChart.len older)
  /\ SmartChart.points st'
     = map (fun p => ChartPoint.with_index
                       p (ChartPoint.index p + SmartChart.len older)%Z)
           (SmartChart.points st)
  /\ SmartChart.prevDataLen st' = SmartChart.len (older ++ old).
Proof.
  intro Hprev. unfold SmartChart.onDataLength, SmartChart.layoutEffect.
  rewrite Hprev, len_app.
  assert (Hlen : (0 <= SmartChart.len older)%Z /\ (0 <= SmartChart.len old)%Z)
    by (unfold SmartChart.len; lia).
  assert (Hpassive : forall s n, SmartChart.prevDataLen s = n ->
                                 SmartChart.passiveEffect s n = s).
  { intros s n Hs. unfold SmartChart.passiveEffect. rewrite Hs.
    destruct (0 <? n)%Z eqn:E0, (n =? 0)%Z eqn:E1; simpl; try reflexivity.
    apply Z.ltb_lt in E0. apply Z.eqb_eq in E1. lia. }
  destruct (SmartChart.len old <? SmartChart.len older + SmartChart.len old)%Z
    eqn:E.
  - rewrite Hpassive by reflexivity. simpl.
    replace (SmartChart.len older + SmartChart.len old - SmartChart.len old)%Z
      with (SmartChart.len older) by lia.
    repeat split; reflexivity.
  - apply Z.ltb_ge in E.
    assert (H0 : SmartChart.len older = 0%Z) by lia.
    rewrite H0. simpl (0 + _)%Z. rewrite Z.ltb_irrefl.
    rewrite Hpassive by reflexivity. simpl. repeat split.
    + unfold inject_Z. ring.
    + rewrite <- (map_id (SmartChart.points st)) at 1.
      apply map_ext. intros [i pr d t]. unfold ChartPoint.with_index; simpl.
      f_equal. lia.
Qed.

(** C7: a candle sequence with distinct dates is extended by prepending K
    older candles.  Every pivot stored for the old sequence (its date the
    date of the candle at its index, or a date found nowhere, for which the
    index shift is the fall-back) is re-derived at oldIndex + K, both in
    the render that first sees the new sequence and after the committed
    state update; the pan offset used by that very render, and the one
    committed, is the old offset + K. *)
Theorem prepend_shifts_pivots_and_offset
        (st : SmartChart.State) (older old : list CandleData.t) :
  let data := older ++ old in
  let K := SmartChart.len older in
  let shifted :=
    map (fun p => (ChartPoint.index p + K)%Z) (SmartChart.points st) in
  NoDup (map CandleData.date data) ->
  SmartChart.prevDataLen st = SmartChart.len old ->
  Forall (fun p => anchored old p \/ date_absent data p)
         (SmartChart.points st) ->
  map ChartPoint.index
      (SmartChart.mappedPoints
         (SmartChart.points st) data
         (SmartChart.dataDiff st (SmartChart.len data)))
  = shifted
  /\ SmartChart.effectiveOffset st (SmartChart.len data)
     == SmartChart.offset st + inject_Z K
  /\ let st' := SmartChart.onDataLength st (SmartChart.len data) in
     SmartChart.offset st' == SmartChart.offset st + inject_Z K
     /\ map ChartPoint.index (SmartChart.points st') = shifted
     /\ map ChartPoint.index
            (SmartChart.mappedPoints
               (SmartChart.points st') data
               (SmartChart.dataDiff st' (SmartChart.len data)))
        = shifted
     /\ SmartChart.effectiveOffset st' (SmartChart.len data)
        == SmartChart.offset st + inject_Z K.
Proof.
  cbv zeta. intros Hnd Hprev Hpts.
  set (K := SmartChart.len older) in *.
  destruct (dataDiff_prepend st older old Hprev) as (Hdiff & Heff).
  destruct (onDataLength_prepend st older old Hprev) as (Hoff & Hpoints & Hlen).
  fold K in Hdiff, Heff, Hoff, Hpoints.
  assert (Hanchor : forall p, anchored old p ->
            exists d, js_get old (ChartPoint.index p + K - K) = Some d
                      /\ CandleData.date d = ChartPoint.date p).
  { intros p (d & Hget & Hd). exists d. split; [|exact Hd].
    replace (ChartPoint.index p + K - K)%Z with (ChartPoint.index p) by lia.
    exact Hget. }
  split; [|split; [exact Heff|]].
  - rewrite Hdiff.
    apply (remap_all older old K
                     (fun p => (ChartPoint.index p + K)%Z) _ Hnd).
    eapply Forall_impl; [|exact Hpts]. intros p [Hanch|Habs].
    + left. apply Hanchor. exact Hanch.
    + right. split; [exact Habs | reflexivity].
  - split; [exact Hoff|].
    assert (Hidx : map ChartPoint.index
                       (SmartChart.points
                          (SmartChart.onDataLength
                             st (SmartChart.len (older ++ old))))
                   = map (fun p => (ChartPoint.index p + K)%Z)
                         (SmartChart.points st)).
    { rewrite Hpoints, map_map. reflexivity. }
    split; [exact Hidx|].
    assert (Hdiff' : SmartChart.dataDiff
                       (SmartChart.onDataLength
                          st (SmartChart.len (older ++ old)))
                       (SmartChart.len (older ++ old)) = 0%Z).
    { unfold SmartChart.dataDiff. rewrite Hlen, Z.ltb_irrefl. reflexivity. }
    split.
    + rewrite Hdiff', <- Hidx.
      apply (remap_all older old 0 ChartPoint.index _ Hnd).
      rewrite Hpoints. apply Forall_map.
      eapply Forall_impl; [|exact Hpts]. intros p [Hanch|Habs]; simpl.
      * left. apply (Hanchor p Hanch).
      * right. split; [exact Habs | lia].
    + unfold SmartChart.effectiveOffset. rewrite Hlen, Z.ltb_irrefl.
      exact Hoff.
Qed.

Lemma prepend_shifts_pivots_and_offset_witness :
  let data := Examples.crossing_older ++ Examples.crossing in
  map ChartPoint.index
      (SmartChart.mappedPoints
         (SmartChart.points Examples.charted) data
         (SmartChart.dataDiff Examples.charted (SmartChart.len data)))
  = [6%Z; 7%Z]
  /\ SmartChart.effectiveOffset Examples.charted (SmartChart.len data) == 2.
Proof.
  destruct (prepend_shifts_pivots_and_offset
              Examples.charted Examples.crossing_older Examples.crossing)
    as (Hpts & Hoff & _).
  - repeat constructor; simpl; intuition discriminate.
  - reflexivity.
  - apply Forall_cons.
    { left. exists (Examples.bar "2024-01-08" 10 1000). split; reflexivity. }
    apply Forall_cons; [|apply Forall_nil].
    left. exists (Examples.bar "2024-01-09" 40 3000). split; reflexivity.
  - split; [exact Hpts | exact Hoff].
Defined.

(** ** Volume anomaly *)

Lemma Qsum_app (l1 l2 : list Q) : Qsum (l1 ++ l2) == Qsum l1 + Qsum l2.
Proof.
  induction l1 as [|x l1 IH]; simpl.
  - ring.
  - rewrite IH. ring.
Qed.

(** An accumulating [for] loop adds up the terms it visits. *)
Lemma fold_left_Qsum {A : Type} (g : A -> Q) (l : list A) :
  forall acc, fold_left (fun s k => s + g k) l acc == acc + Qsum (map g l).
Proof.
  induction l as [|x l IH]; intro acc; simpl.
  - ring.
  - rewrite IH. ring.
Qed.

Lemma loop_range_succ (from : Z) (n : nat) :
  loop_range from (Z.of_nat (S n))
  = loop_range from (Z.of_nat n) ++ [(from + Z.of_nat n)%Z].
Proof.
  unfold loop_range. rewrite !Nat2Z.id, seq_S, map_app. reflexivity.
Qed.

Lemma skipn_cons_nth {A : Type} (l : list A) :
  forall (m : nat) (d : A),
    nth_error l m = Some d -> skipn m l = d :: skipn (S m) l.
Proof.
  induction l as [|x l IH]; intros [|m] d H; simpl in *; try discriminate.
  - injection H as ->. reflexivity.
  - apply (IH m d H).
Qed.

(** The loop [for (k = 1; k <= n; k++) sumVol += data[i - k].volume] adds
    up the volumes of the window [data[i-n .. i-1]]. *)
Lemma window_sum (data : list CandleData.t) (n : nat) :
  forall m : nat,
    (m + n <= List.length data)%nat ->
    Qsum (map (fun k => SmartChart.volumeAt
                          data (Z.of_nat m + Z.of_nat n - k)%Z)
              (loop_range 1 (Z.of_nat n)))
    == Qsum (map CandleData.volume (firstn n (skipn m data))).
Proof.
  induction n as [|n IH]; intros m Hm.
  - reflexivity.
  - rewrite loop_range_succ, map_app, Qsum_app.
    destruct (nth_error data m) as [d|] eqn:Hd.
    2:{ apply nth_error_None in Hd. lia. }
    rewrite (skipn_cons_nth data m d Hd).
    cbn [firstn map Qsum fold_right].
    assert (Hlast : SmartChart.volumeAt
                      data (Z.of_nat m + Z.of_nat (S n) - (1 + Z.of_nat n))%Z
                    = CandleData.volume d).
    { unfold SmartChart.volumeAt, js_get.
      replace (Z.of_nat m + Z.of_nat (S n) - (1 + Z.of_nat n))%Z
        with (Z.of_nat m) by lia.
      replace (Z.of_nat m <? 0)%Z with false
        by (symmetry; apply Z.ltb_ge; lia).
      rewrite Nat2Z.id, Hd. reflexivity. }
    rewrite Hlast.
    rewrite <- (IH (S m)) by lia.
    rewrite (map_ext
               (fun k => SmartChart.volumeAt
                           data (Z.of_nat m + Z.of_nat (S n) - k)%Z)
               (fun k => SmartChart.volumeAt
                           data (Z.of_nat (S m) + Z.of_nat n - k)%Z)).
    + ring.
    + intro k. f_equal. lia.
Qed.

Lemma preceding_volumes_length (data : list CandleData.t) (i N : Z) :
  (0 <= N <= i)%Z -> (i <= SmartChart.len data)%Z ->
  Z.of_nat (List.length (preceding_volumes data i N)) = N.
Proof.
  intros HN Hi. unfold preceding_volumes, SmartChart.len in *.
  rewrite length_map, length_firstn, length_skipn. lia.
Qed.

(** The trailing average the code computes is the mean of the window. *)
Lemma volMA_is_mean (cfg : SmartChart.Config) (data : list CandleData.t)
      (i : Z) :
  (SmartChart.vLen cfg <= i)%Z -> (i <= SmartChart.len data)%Z ->
  exists m, SmartChart.volMA cfg data i = Some m
            /\ m == mean (preceding_volumes data i (SmartChart.vLen cfg)).
Proof.
  intros HN Hi. unfold SmartChart.volMA.
  assert (H1 : (1 <= SmartChart.vLen cfg)%Z)
    by (unfold SmartChart.vLen; lia).
  replace (SmartChart.vLen cfg <=? i)%Z with true
    by (symmetry; apply Z.leb_le; exact HN).
  eexists. split; [reflexivity|].
  unfold mean. rewrite preceding_volumes_length by lia.
  apply Qmult_comp; [|reflexivity].
  rewrite fold_left_Qsum, Qplus_0_l.
  unfold preceding_volumes.
  set (n := Z.to_nat (SmartChart.vLen cfg)).
  set (m := Z.to_nat (i - SmartChart.vLen cfg)).
  replace (SmartChart.vLen cfg) with (Z.of_nat n) by (unfold n; lia).
  rewrite <- (window_sum data n m)
    by (unfold n, m, SmartChart.len in *; lia).
  erewrite map_ext; [reflexivity|].
  intro k. simpl. f_equal. unfold n, m. lia.
Qed.

Lemma Math_round_integer (x : Q) (n : Z) : x == inject_Z n -> Math_round x = n.
Proof.
  intro Hx. unfold Math_round.
  rewrite (Qfloor_comp _ (inject_Z n + (1 # 2))) by (rewrite Hx; reflexivity).
  unfold Qfloor, inject_Z, Qplus; simpl.
  symmetry. apply Z.div_unique with (r := 1%Z); lia.
Qed.

(** C6: for every bar index i and volume window N (the configured length,
    an integer of at least 1, is the window), the anomaly flag is true
    exactly when at least N bars precede bar i and the bar's volume is at
    least the arithmetic mean of the volumes of the N bars strictly before
    it, which is the trailing average the code stores; with fewer than N
    prior bars the flag is false and the average is undefined. *)
Theorem volume_anomaly_flag
        (cfg : SmartChart.Config) (data : list CandleData.t) (i : Z) :
  (0 <= i < SmartChart.len data)%Z ->
  let N := SmartChart.vLen cfg in
  (forall n : Z, (1 <= n)%Z ->
                 SmartChart.volMALength cfg == inject_Z n -> N = n)
  /\ (SmartChart.isVolAnomaly cfg data i = true
      <-> (N <= i)%Z
          /\ SmartChart.volumeAt data i
             >= mean (preceding_volumes data i N))
  /\ ((N <= i)%Z ->
      Z.of_nat (List.length (preceding_volumes data i N)) = N
      /\ exists m, SmartChart.volMA cfg data i = Some m
                   /\ m == mean (preceding_volumes data i N))
  /\ ((i < N)%Z ->
      SmartChart.isVolAnomaly cfg data i = false
      /\ SmartChart.volMA cfg data i = None).
Proof.
  intros Hi N.
  assert (H1 : (1 <= N)%Z) by (unfold N, SmartChart.vLen; lia).
  assert (Hnone : (i < N)%Z -> SmartChart.volMA cfg data i = None).
  { intro Hlt. unfold SmartChart.volMA. fold N.
    replace (N <=? i)%Z with false by (symmetry; apply Z.leb_gt; exact Hlt).
    reflexivity. }
  split; [|split; [|split]].
  - intros n Hn Hcfg. unfold N, SmartChart.vLen.
    rewrite (Math_round_integer _ n Hcfg). lia.
  - unfold SmartChart.isVolAnomaly. split.
    + intro Hflag. destruct (Z_lt_le_dec i N) as [Hlt|Hle].
      { rewrite (Hnone Hlt) in Hflag. discriminate Hflag. }
      split; [exact Hle|].
      destruct (volMA_is_mean cfg data i Hle) as (m & Hm & Hmean); [lia|].
      rewrite Hm in Hflag. apply num_ge_true in Hflag.
      fold N in Hmean. rewrite <- Hmean. exact Hflag.
    + intros (Hle & Hge).
      destruct (volMA_is_mean cfg data i Hle) as (m & Hm & Hmean); [lia|].
      rewrite Hm. apply num_ge_true. fold N in Hmean. rewrite Hmean.
      exact Hge.
  - intro Hle. split.
    + apply preceding_volumes_length; lia.
    + apply volMA_is_mean; [exact Hle | lia].
  - intro Hlt. unfold SmartChart.isVolAnomaly. rewrite (Hnone Hlt).
    split; reflexivity.
Qed.

Lemma volume_anomaly_flag_witness :
  SmartChart.isVolAnomaly Examples.cfg2 Examples.crossing 5 = true
  /\ SmartChart.volMA Examples.cfg2 Examples.crossing 1 = None.
Proof.
  split.
  - apply (volume_anomaly_flag Examples.cfg2 Examples.crossing 5).
    + split; [discriminate | reflexivity].
    + split; [discriminate | discriminate].
  - apply (volume_anomaly_flag Examples.cfg2 Examples.crossing 1).
    + split; [discriminate | reflexivity].
    + reflexivity.
Defined.

(** ** Granville signals *)

Lemma loop_range_nth (from count j : Z) :
  (0 <= j < count)%Z ->
  nth_error (loop_range from count) (Z.to_nat j) = Some (from + j)%Z.
Proof.
  intro Hj. unfold loop_range.
  rewrite nth_error_map.
  rewrite (nth_error_nth' _ 0%nat) by (rewrite length_seq; lia).
  rewrite seq_nth by lia. simpl. f_equal. lia.
Qed.

(** Inside the array, [maData[j]] is the cell computed for [j]. *)
Lemma maAt_in_range (cfg : SmartChart.Config) (data : list CandleData.t)
      (j : Z) :
  (0 <= j < SmartChart.len data)%Z ->
  SmartChart.maAt cfg data j = SmartChart.maCell cfg data j.
Proof.
  intro Hj. unfold SmartChart.maAt, SmartChart.maData, js_get.
  replace (j <? 0)%Z with false by (symmetry; apply Z.ltb_ge; lia).
  rewrite nth_error_map, (loop_range_nth 0 _ j Hj). reflexivity.
Qed.

Lemma loop_range_in (from count k : Z) :
  In k (loop_range from count) -> (from <= k < from + count)%Z.
Proof.
  unfold loop_range. intro Hin. apply in_map_iff in Hin.
  destruct Hin as (n & <- & Hn). apply in_seq in Hn. lia.
Qed.

Lemma closeAt_positive (data : list CandleData.t) (j : Z) :
  positive_closes data -> (0 <= j < SmartChart.len data)%Z ->
  0 < SmartChart.closeAt data j.
Proof.
  intros Hpos Hj. unfold SmartChart.closeAt, js_get, SmartChart.len in *.
  replace (j <? 0)%Z with false by (symmetry; apply Z.ltb_ge; lia).
  destruct (nth_error data (Z.to_nat j)) as [d|] eqn:Hd.
  - apply nth_error_In in Hd.
    apply (proj1 (Forall_forall _ _) Hpos d Hd).
  - apply nth_error_None in Hd. lia.
Qed.

Lemma Qsum_positive (l : list Q) :
  l <> [] -> Forall (fun x => 0 < x) l -> 0 < Qsum l.
Proof.
  intros Hne Hall. induction Hall as [|x l Hx Hl IH]; [congruence|].
  simpl. destruct l as [|y l].
  - simpl. lra.
  - assert (0 < Qsum (y :: l)) by (apply IH; discriminate). lra.
Qed.

(** Over positive closes a filled window has a positive average, so the
    bias divides by a positive number. *)
Lemma maCell_positive (cfg : SmartChart.Config) (data : list CandleData.t)
      (i : Z) (v : Q) :
  positive_closes data ->
  (1 <= SmartChart.maLength cfg)%Z -> (i < SmartChart.len data)%Z ->
  SmartChart.maCell cfg data i = Some v -> 0 < v.
Proof.
  intros Hpos Hlen Hi. unfold SmartChart.maCell.
  destruct (SmartChart.granvilleEnabled cfg); simpl; [|discriminate].
  destruct (SmartChart.maLength cfg - 1 <=? i)%Z eqn:E; [|discriminate].
  apply Z.leb_le in E. intro Hv. injection Hv as <-.
  assert (Hm : 0 < inject_Z (SmartChart.maLength cfg)).
  { change 0 with (inject_Z 0). rewrite <- Zlt_Qlt. lia. }
  apply Qlt_shift_div_l; [exact Hm|].
  rewrite Qmult_0_l, fold_left_Qsum, Qplus_0_l.
  apply Qsum_positive.
  - unfold loop_range.
    destruct (Z.to_nat (SmartChart.maLength cfg)) eqn:En; [lia|].
    discriminate.
  - apply Forall_map, Forall_forall. intros k Hk.
    apply loop_range_in in Hk. apply closeAt_positive; [exact Hpos | lia].
Qed.

Lemma isBreakout_iff (ma prevMa prevClose close : Q) :
  SmartChart.isBreakout ma prevMa prevClose close = true
  <-> Granville.matches ma prevMa prevClose close Granville.Breakout.
Proof.
  unfold SmartChart.isBreakout; simpl.
  rewrite !andb_true_iff, negb_true_iff, num_lt_false, num_lt_true,
    num_gt_true.
  tauto.
Qed.

Lemma isBreakdown_iff (ma prevMa prevClose close : Q) :
  SmartChart.isBreakdown ma prevMa prevClose close = true
  <-> Granville.matches ma prevMa prevClose close Granville.Breakdown.
Proof.
  unfold SmartChart.isBreakdown; simpl.
  rewrite !andb_true_iff, negb_true_iff, num_gt_false, num_gt_true,
    num_lt_true.
  tauto.
Qed.

Lemma isOversold_iff (ma prevMa prevClose close : Q) :
  SmartChart.isOversold ma close = true
  <-> Granville.matches ma prevMa prevClose close Granville.Oversold.
Proof.
  unfold SmartChart.isOversold, SmartChart.bias; simpl. apply num_lt_true.
Qed.

Lemma isOverbought_iff (ma prevMa prevClose close : Q) :
  SmartChart.isOverbought ma close = true
  <-> Granville.matches ma prevMa prevClose close Granville.Overbought.
Proof.
  unfold SmartChart.isOverbought, SmartChart.bias; simpl. apply num_gt_true.
Qed.

(** Closes [order = before ++ a :: after], then the non-matches before. *)
Ltac first_in_split :=
  split; [reflexivity | split; [repeat constructor; assumption | ]].

(** The [if / else if] cascade picks the first matching category. *)
Lemma cascade_first_match (ma prevMa prevClose close : Q) :
  exists o,
    first_in (Granville.matches ma prevMa prevClose close)
             Granville.priority o
    /\ (if SmartChart.isBreakout ma prevMa prevClose close
        then Some SmartChart.SIG_B1
        else if SmartChart.isBreakdown ma prevMa prevClose close
        then Some SmartChart.SIG_S5
        else if SmartChart.isOversold ma close then Some SmartChart.SIG_B4
        else if SmartChart.isOverbought ma close then Some SmartChart.SIG_S8
        else None)
       = option_map Granville.signal o.
Proof.
  pose proof (isBreakout_iff ma prevMa prevClose close) as H1.
  pose proof (isBreakdown_iff ma prevMa prevClose close) as H2.
  pose proof (isOversold_iff ma prevMa prevClose close) as H3.
  pose proof (isOverbought_iff ma prevMa prevClose close) as H4.
  assert (Hno : forall b P, (b = true <-> P) -> b = false -> ~ P).
  { intros b P Hiff Hb HP. apply Hiff in HP. congruence. }
  unfold Granville.priority.
  destruct (SmartChart.isBreakout _ _ _ _) eqn:E1.
  { exists (Some Granville.Breakout). split; [|reflexivity].
    exists [], [Granville.Breakdown; Granville.Oversold; Granville.Overbought].
    first_in_split. apply H1; reflexivity. }
  pose proof (Hno _ _ H1 eq_refl) as N1.
  destruct (SmartChart.isBreakdown _ _ _ _) eqn:E2.
  { exists (Some Granville.Breakdown). split; [|reflexivity].
    exists [Granville.Breakout], [Granville.Oversold; Granville.Overbought].
    first_in_split. apply H2; reflexivity. }
  pose proof (Hno _ _ H2 eq_refl) as N2.
  destruct (SmartChart.isOversold _ _) eqn:E3.
  { exists (Some Granville.Oversold). split; [|reflexivity].
    exists [Granville.Breakout; Granville.Breakdown], [Granville.Overbought].
    first_in_split. apply H3; reflexivity. }
  pose proof (Hno _ _ H3 eq_refl) as N3.
  destruct (SmartChart.isOverbought _ _) eqn:E4.
  { exists (Some Granville.Overbought). split; [|reflexivity].
    exists [Granville.Breakout; Granville.Breakdown; Granville.Oversold], [].
    first_in_split. apply H4; reflexivity. }
  pose proof (Hno _ _ H4 eq_refl) as N4.
  exists None. split; [|reflexivity].
  simpl. repeat constructor; assumption.
Qed.

(** C8 as stated does not hold at the bar whose index equals the window
    length: with a window of 5 the average is defined at bars 4 and 5, the
    close crosses a rising average upwards at bar 5, and no signal is
    assigned because the cascade only runs for indices above the window. *)
Lemma granville_stated_priority_refuted :
  ~ (forall cfg data i,
        positive_closes data ->
        SmartChart.granvilleEnabled cfg = true ->
        (1 <= SmartChart.maLength cfg)%Z ->
        (0 <= i < SmartChart.len data)%Z ->
        Granville.assigned_by_priority cfg data i).
Proof.
  intro H.
  assert (Hpos : positive_closes Examples.crossing)
    by (repeat constructor).
  assert (Hi : (0 <= 5 < SmartChart.len Examples.crossing)%Z)
    by (split; [discriminate | reflexivity]).
  assert (Hlen : (1 <= SmartChart.maLength Examples.cfg5)%Z)
    by discriminate.
  destruct (H Examples.cfg5 Examples.crossing 5%Z Hpos eq_refl Hlen Hi
              _ _ eq_refl eq_refl)
    as (o & Hfirst & Hsig).
  destruct o as [g|].
  - destruct g; discriminate Hsig.
  - simpl in Hfirst. inversion Hfirst as [|? ? Hb _]; subst.
    apply Hb. simpl. repeat split; try reflexivity; discriminate.
Qed.

(** C8 (amended): over candles with positive closes, with the signals
    enabled and a window of at least one bar, every bar whose index is
    strictly greater than the window length has its moving average defined
    (and positive) at the bar and at its predecessor and is assigned at most
    one signal, the first that matches in the order breakout-up,
    breakdown-down, oversold (bias < -0.20), overbought (bias > +0.20);
    bars up to the window length, or any bar with the signals disabled, get
    none. *)
Theorem granville_first_match_wins
        (cfg : SmartChart.Config) (data : list CandleData.t) (i : Z) :
  positive_closes data ->
  (0 <= i < SmartChart.len data)%Z ->
  (1 <= SmartChart.maLength cfg)%Z ->
  (SmartChart.granvilleEnabled cfg = true ->
   (SmartChart.maLength cfg < i)%Z ->
   exists ma prevMa o,
     SmartChart.maAt cfg data i = Some ma
     /\ SmartChart.maAt cfg data (i - 1) = Some prevMa
     /\ 0 < ma /\ 0 < prevMa
     /\ first_in (Granville.matches ma prevMa
                                    (SmartChart.closeAt data (i - 1))
                                    (SmartChart.closeAt data i))
                 Granville.priority o
     /\ SmartChart.granvilleSignal cfg data i
        = option_map Granville.signal o)
  /\ (SmartChart.granvilleEnabled cfg = false
      \/ (i <= SmartChart.maLength cfg)%Z ->
      SmartChart.granvilleSignal cfg data i = None).
Proof.
  intros Hpos Hi Hlen. split.
  - intros Hen Hgt.
    assert (Hcell : forall j, (SmartChart.maLength cfg <= j)%Z ->
                              exists v, SmartChart.maCell cfg data j = Some v).
    { intros j Hj. unfold SmartChart.maCell. rewrite Hen.
      replace (SmartChart.maLength cfg - 1 <=? j)%Z with true
        by (symmetry; apply Z.leb_le; lia).
      simpl. eexists. reflexivity. }
    destruct (Hcell i) as (ma & Hma); [lia|].
    destruct (Hcell (i - 1)%Z) as (prevMa & Hprev); [lia|].
    assert (Hma0 : 0 < ma)
      by (apply (maCell_positive cfg data i); auto; lia).
    assert (Hprev0 : 0 < prevMa)
      by (apply (maCell_positive cfg data (i - 1)); auto; lia).
    rewrite <- maAt_in_range in Hma, Hprev by lia.
    destruct (cascade_first_match ma prevMa
                (SmartChart.closeAt data (i - 1)) (SmartChart.closeAt data i))
      as (o & Hfirst & Hcode).
    exists ma, prevMa, o. repeat split; try assumption.
    unfold SmartChart.granvilleSignal. rewrite Hen, Hma, Hprev.
    replace (SmartChart.maLength cfg <? i)%Z with true
      by (symmetry; apply Z.ltb_lt; exact Hgt).
    simpl. exact Hcode.
  - intros [Hdis|Hle]; unfold SmartChart.granvilleSignal.
    + rewrite Hdis. reflexivity.
    + replace (SmartChart.maLength cfg <? i)%Z with false
        by (symmetry; apply Z.ltb_ge; exact Hle).
      rewrite andb_false_r. reflexivity.
Qed.

Lemma granville_first_match_wins_witness :
  (exists o, SmartChart.granvilleSignal Examples.cfg2 Examples.crossing 5
             = option_map Granville.signal o)
  /\ SmartChart.granvilleSignal Examples.cfg5 Examples.crossing 5 = None.
Proof.
  split.
  - destruct (granville_first_match_wins Examples.cfg2 Examples.crossing 5)
      as (Hsig & _).
    + repeat constructor.
    + split; [discriminate | reflexivity].
    + discriminate.
    + destruct Hsig as (ma & prevMa & o & _ & _ & _ & _ & _ & Ho);
        [reflexivity | reflexivity |].
      exists o. exact Ho.
  - apply (granville_first_match_wins Examples.cfg5 Examples.crossing 5).
    + repeat constructor.
    + split; [discriminate | reflexivity].
    + discriminate.
    + right. discriminate.
Defined.

(** * Further properties of the code *)

(** ** The projection engine: shape of a valid result *)

(** A valid result can only come from a valid wave structure. *)
Lemma calculate_valid_inv (inputs : WaveInputs.t) (r : FibRatio)
      (prev : CalculationResult.t) :
  CalculationResult.isValid (Calculator.calculate inputs r prev) = true ->
  exists P0 P1 P2,
    WaveInputs.p0 inputs = Some P0 /\ WaveInputs.p1 inputs = Some P1
    /\ WaveInputs.p2 inputs = Some P2
    /\ P0 < P2 /\ P2 < P1
    /\ match WaveInputs.p3 inputs with Some v => P2 < v | None => True end.
Proof.
  unfold Calculator.calculate, Calculator.compute.
  destruct (WaveInputs.p0 inputs) as [P0|]; [|discriminate].
  destruct (WaveInputs.p1 inputs) as [P1|]; [|discriminate].
  destruct (WaveInputs.p2 inputs) as [P2|]; [|discriminate].
  destruct (num_le P1 P0) eqn:E1; [discriminate|].
  destruct (num_le P2 P0) eqn:E2; [discriminate|].
  destruct (num_ge P2 P1) eqn:E3; [discriminate|].
  apply num_le_false in E2. apply num_ge_false in E3.
  intro Hv. exists P0, P1, P2. repeat split; try assumption.
  destruct (WaveInputs.p3 inputs) as [v|]; [|exact I].
  destruct (num_le v P2) eqn:E4; [discriminate|].
  apply num_le_false in E4. exact E4.
Qed.







(** X4: running the effect again on unchanged inputs changes nothing, and
    a successful result does not depend on the result that was there
    before. *)
Theorem calculate_stable
        (inputs : WaveInputs.t) (r : FibRatio)
        (prev prev' : CalculationResult.t) :
  Calculator.calculate inputs r (Calculator.calculate inputs r prev)
  = Calculator.calculate inputs r prev
  /\ (CalculationResult.isValid (Calculator.calculate inputs r prev) = true ->
      Calculator.calculate inputs r prev'
      = Calculator.calculate inputs r prev).
Proof.
  unfold Calculator.calculate, Calculator.compute.
  destruct (WaveInputs.p0 inputs), (WaveInputs.p1 inputs),
    (WaveInputs.p2 inputs); try (split; [reflexivity | discriminate]).
  repeat match goal with
         | |- context [if ?b then _ else _] => destruct b
         end; split; try reflexivity; simpl; discriminate.
Qed.

Lemma calculate_stable_witness :
  Calculator.calculate Examples.scenarioA R05 Examples.resultA
  = Examples.resultA.
Proof.
  exact (proj1 (calculate_stable Examples.scenarioA R05
                                 Calculator.INITIAL_RESULT
                                 Calculator.INITIAL_RESULT)).
Defined.

(** ** The schematic wave chart *)

Lemma Math_min_le (a b : Q) : Math_min a b <= a /\ Math_min a b <= b.
Proof.
  unfold Math_min. destruct (Qle_bool a b) eqn:E.
  - apply Qle_bool_iff in E. split; lra.
  - apply (num_le_false a b) in E. split; lra.
Qed.

Lemma Math_max_ge (a b : Q) : a <= Math_max a b /\ b <= Math_max a b.
Proof.
  unfold Math_max. destruct (Qle_bool a b) eqn:E.
  - apply Qle_bool_iff in E. split; lra.
  - apply (num_le_false a b) in E. split; lra.
Qed.

(** [Math.min(...)] and [Math.max(...)] bound every argument. *)
Lemma fold_min_bound (vs : list Q) :
  forall v x, In x (v :: vs) -> fold_left Math_min vs v <= x.
Proof.
  induction vs as [|a vs IH]; intros v x Hin; simpl.
  - destruct Hin as [->|[]]. lra.
  - pose proof (Math_min_le v a) as (Hv & Ha).
    destruct Hin as [<-|[<-|Hin]].
    + apply Qle_trans with (Math_min v a); [|exact Hv].
      apply IH. left. reflexivity.
    + apply Qle_trans with (Math_min v a); [|exact Ha].
      apply IH. left. reflexivity.
    + apply IH. right. exact Hin.
Qed.

Lemma fold_max_bound (vs : list Q) :
  forall v x, In x (v :: vs) -> x <= fold_left Math_max vs v.
Proof.
  induction vs as [|a vs IH]; intros v x Hin; simpl.
  - destruct Hin as [->|[]]. lra.
  - pose proof (Math_max_ge v a) as (Hv & Ha).
    destruct Hin as [<-|[<-|Hin]].
    + apply Qle_trans with (Math_max v a); [exact Hv|].
      apply IH. left. reflexivity.
    + apply Qle_trans with (Math_max v a); [exact Ha|].
      apply IH. left. reflexivity.
    + apply IH. right. exact Hin.
Qed.





(** ** The viewport: zoom, pan and the visible bars *)

Lemma Math_max_cases (a b : Q) :
  (a <= b /\ Math_max a b = b) \/ (b < a /\ Math_max a b = a).
Proof.
  unfold Math_max. destruct (Qle_bool a b) eqn:E.
  - left. split; [apply Qle_bool_iff; exact E | reflexivity].
  - right. split; [apply (num_le_false a b); exact E | reflexivity].
Qed.

Lemma Math_min_cases (a b : Q) :
  (a <= b /\ Math_min a b = a) \/ (b < a /\ Math_min a b = b).
Proof.
  unfold Math_min. destruct (Qle_bool a b) eqn:E.
  - left. split; [apply Qle_bool_iff; exact E | reflexivity].
  - right. split; [apply (num_le_false a b); exact E | reflexivity].
Qed.

(** The clamp of every zoom update. *)
Lemma clamp_bounds (z : Q) :
  15 <= Math_min (Math_max 15 z) 300 /\ Math_min (Math_max 15 z) 300 <= 300
  /\ (15 <= z -> z <= 300 -> Math_min (Math_max 15 z) 300 = z).
Proof.
  destruct (Math_max_cases 15 z) as [(H1 & ->)|(H1 & ->)];
    destruct (Math_min_cases z 300) as [(H2 & E2)|(H2 & E2)];
    destruct (Math_min_cases 15 300) as [(H3 & E3)|(H3 & E3)];
    rewrite ?E2, ?E3; repeat split; intros; try reflexivity; try lra.
Qed.

(** X7: every way the zoom is written (wheel, pinch, reset view) leaves it
    between 15 and 300 candles; a wheel step that stays inside the bounds
    is applied exactly, at 0.05 candles per wheel unit. *)
Theorem zoom_stays_in_bounds
        (st : SmartChart.State) (deltaY pinchStartDist pinchStartZoom dist : Q)
        (dataLength : Z) :
  15 <= SmartChart.zoom st -> SmartChart.zoom st <= 300 -> 0 < dist ->
  (15 <= SmartChart.zoom (SmartChartUI.handleWheel st deltaY)
   /\ SmartChart.zoom (SmartChartUI.handleWheel st deltaY) <= 300)
  /\ (15 <= SmartChart.zoom
              (SmartChartUI.onPinch st pinchStartDist pinchStartZoom dist)
      /\ SmartChart.zoom
           (SmartChartUI.onPinch st pinchStartDist pinchStartZoom dist)
         <= 300)
  /\ SmartChart.zoom (SmartChart.handleResetView st dataLength) == 60
  /\ (15 <= SmartChart.zoom st + deltaY * 0.05 ->
      SmartChart.zoom st + deltaY * 0.05 <= 300 ->
      SmartChart.zoom (SmartChartUI.handleWheel st deltaY)
      = SmartChart.zoom st + deltaY * 0.05).
Proof.
  intros Hlo Hhi Hdist. split; [|split; [|split]].
  - unfold SmartChartUI.handleWheel; simpl.
    pose proof (clamp_bounds (SmartChart.zoom st + deltaY * 0.05)). tauto.
  - unfold SmartChartUI.onPinch.
    destruct (num_gt pinchStartDist 0); simpl; [|split; assumption].
    pose proof (clamp_bounds (pinchStartZoom * (pinchStartDist / dist))).
    tauto.
  - reflexivity.
  - intros H1 H2. unfold SmartChartUI.handleWheel; simpl.
    apply clamp_bounds; assumption.
Qed.

Lemma zoom_stays_in_bounds_witness :
  SmartChart.zoom (SmartChartUI.handleWheel Examples.scenarioD 10000) <= 300
  /\ SmartChart.zoom (SmartChartUI.handleWheel Examples.scenarioD 100)
     = 60 + 100 * 0.05.
Proof.
  destruct (zoom_stays_in_bounds Examples.scenarioD 10000 1 1 1 200)
    as ((_ & Hw) & _); [discriminate | discriminate | reflexivity |].
  destruct (zoom_stays_in_bounds Examples.scenarioD 100 1 1 1 200)
    as (_ & _ & _ & He); [discriminate | discriminate | reflexivity |].
  split; [exact Hw|]. apply He; discriminate.
Defined.


(** X8: a drag never moves the pan position past [length - 5]; below that
    bound it lands where it was dragged to.  So with the chart panned to
    any position from 0 on, at least five candles stay in view. *)
Theorem drag_keeps_candles_in_view
        (st : SmartChart.State) (dataLength : Z)
        (dragStartOffset deltaBars : Q) :
  SmartChart.prevDataLen st = dataLength ->
  (5 <= dataLength)%Z -> 15 <= SmartChart.zoom st ->
  let st' := SmartChart.onDrag st dataLength dragStartOffset deltaBars in
  SmartChart.offset st' <= inject_Z dataLength - 5
  /\ (dragStartOffset + deltaBars <= inject_Z dataLength - 5 ->
      SmartChart.offset st' = dragStartOffset + deltaBars)
  /\ (0 <= SmartChart.offset st' ->
      let '(first, last) := SmartChart.visibleRange st' dataLength in
      (0 <= first /\ first + 4 <= last /\ last <= dataLength - 1)%Z).
Proof.
  intros Hprev Hlen Hzoom st'.
  assert (Hoff : SmartChart.offset st' <= inject_Z dataLength - 5
                 /\ (dragStartOffset + deltaBars <= inject_Z dataLength - 5 ->
                     SmartChart.offset st' = dragStartOffset + deltaBars)).
  { unfold st', SmartChart.onDrag; simpl.
    destruct (num_gt (dragStartOffset + deltaBars) (inject_Z dataLength - 5))
      eqn:E.
    - apply num_gt_true in E. split; [lra | intro; lra].
    - apply num_gt_false in E. split; [exact E | reflexivity]. }
  destruct Hoff as (Hle & Heq). split; [exact Hle|]. split; [exact Heq|].
  intro H0.
  assert (Heff : SmartChart.effectiveOffset st' dataLength
                 = SmartChart.offset st').
  { unfold SmartChart.effectiveOffset. unfold st' at 1; simpl.
    rewrite Hprev, Z.ltb_irrefl. reflexivity. }
  unfold SmartChart.visibleRange, SmartChart.visibleStartIndex,
    SmartChart.visibleEndIndex. rewrite Heff.
  assert (Hzoom' : SmartChart.zoom st' = SmartChart.zoom st) by reflexivity.
  rewrite Hzoom'.
  set (off := SmartChart.offset st') in *.
  destruct (Math_max_cases 0 off) as [(_ & ->)|(Hneg & _)]; [|lra].
  unfold Math_floor, Math_ceil.
  assert (Hf0 : (0 <= Qfloor off)%Z).
  { rewrite <- (Qfloor_Z 0). apply Qfloor_resp_le. exact H0. }
  assert (Hf1 : (Qfloor off <= dataLength - 5)%Z).
  { rewrite <- (Qfloor_Z (dataLength - 5)). apply Qfloor_resp_le.
    assert (E : inject_Z (dataLength - 5) == inject_Z dataLength - 5)
      by (unfold Zminus; rewrite inject_Z_plus; reflexivity).
    lra. }
  assert (Hc : (Qfloor off + 15 <= Qceiling (off + SmartChart.zoom st))%Z).
  { rewrite <- (Qceiling_Z (Qfloor off + 15)). apply Qceiling_resp_le.
    assert (E : inject_Z (Qfloor off + 15) == inject_Z (Qfloor off) + 15)
      by (rewrite inject_Z_plus; reflexivity).
    pose proof (Qfloor_le off). lra. }
  lia.
Qed.

Lemma drag_keeps_candles_in_view_witness :
  SmartChart.offset (SmartChart.onDrag Examples.scenarioD 200 0 1000)
  <= inject_Z 200 - 5.
Proof.
  destruct (drag_keeps_candles_in_view Examples.scenarioD 200 0 1000)
    as (Hle & _).
  - reflexivity.
  - discriminate.
  - discriminate.
  - exact Hle.
Defined.

Lemma js_get_in_range {A : Type} (arr : list A) (j : Z) :
  (0 <= j < Z.of_nat (List.length arr))%Z -> exists d, js_get arr j = Some d.
Proof.
  intro Hj. unfold js_get.
  replace (j <? 0)%Z with false by (symmetry; apply Z.ltb_ge; lia).
  destruct (nth_error arr (Z.to_nat j)) as [d|] eqn:E; [eauto|].
  apply nth_error_None in E. lia.
Qed.

Lemma loop_range_length (from count : Z) :
  List.length (loop_range from count) = Z.to_nat count.
Proof. unfold loop_range. rewrite length_map, length_seq. reflexivity. Qed.

(** The render loop produces one bar per index it visits, in order, as
    long as the indices are inside the array. *)
Lemma render_loop_bars (cfg : SmartChart.Config) (data : list CandleData.t)
      (l : list Z) :
  (forall i, In i l -> (0 <= i < SmartChart.len data)%Z) ->
  let bars :=
    flat_map
      (fun i =>
         match js_get data i with
         | Some d =>
             [SmartChart.mkBar d i (SmartChart.isVolAnomaly cfg data i)
                               (SmartChart.volMA cfg data i)
                               (SmartChart.maAt cfg data i)
                               (SmartChart.granvilleSignal cfg data i)]
         | None => []
         end) l in
  map SmartChart.bar_index bars = l
  /\ Forall (fun b =>
               js_get data (SmartChart.bar_index b) = Some (SmartChart.candle b)
               /\ SmartChart.bar_maValue b
                  = SmartChart.maAt cfg data (SmartChart.bar_index b)
               /\ In (SmartChart.bar_index b) l) bars.
Proof.
  induction l as [|i l IH]; intro Hin; simpl.
  - split; [reflexivity | constructor].
  - destruct IH as (IHm & IHf).
    { intros j Hj. apply Hin. right. exact Hj. }
    destruct (js_get_in_range data i (Hin i (or_introl eq_refl))) as (d & Hd).
    rewrite Hd. simpl. split.
    + f_equal. exact IHm.
    + constructor; [simpl; auto|].
      eapply Forall_impl; [|exact IHf]. simpl. intros b (H1 & H2 & H3). auto.
Qed.

Lemma visibleRange_bounds (st : SmartChart.State) (dataLength : Z) :
  (0 <= fst (SmartChart.visibleRange st dataLength))%Z
  /\ (snd (SmartChart.visibleRange st dataLength) <= dataLength - 1)%Z.
Proof. unfold SmartChart.visibleRange; simpl. lia. Qed.

(** X9: for a moving-average window of at least one bar, the bars handed
    to the renderer are exactly the candles of the visible index range, one
    per index and in order, each read inside the array (no index below 0 or
    beyond the last candle is ever read: where the signal test of a bar is
    entered, the previous candle and the previous cell of the averages
    exist), and there are never more than ceil(zoom) + 2 of them. *)
Theorem visible_bars_are_the_range
        (cfg : SmartChart.Config) (st : SmartChart.State)
        (data : list CandleData.t) :
  (1 <= SmartChart.maLength cfg)%Z ->
  let first := fst (SmartChart.visibleRange st (SmartChart.len data)) in
  let last := snd (SmartChart.visibleRange st (SmartChart.len data)) in
  let bars := SmartChart.visibleData cfg st data in
  (0 <= first)%Z /\ (last <= SmartChart.len data - 1)%Z
  /\ map SmartChart.bar_index bars = loop_range first (last - first + 1)
  /\ Forall (fun b =>
               (first <= SmartChart.bar_index b <= last)%Z
               /\ js_get data (SmartChart.bar_index b)
                  = Some (SmartChart.candle b)) bars
  /\ Forall (fun b =>
               (SmartChart.maLength cfg < SmartChart.bar_index b)%Z ->
               exists d cell,
                 js_get data (SmartChart.bar_index b - 1) = Some d
                 /\ js_get (SmartChart.maData cfg data)
                           (SmartChart.bar_index b - 1) = Some cell) bars
  /\ (0 <= SmartChart.zoom st ->
      (Z.of_nat (List.length bars) <= Qceiling (SmartChart.zoom st) + 2)%Z).
Proof.
  intros Hma first last bars.
  pose proof (visibleRange_bounds st (SmartChart.len data)) as (Hf & Hl).
  fold first in Hf. fold last in Hl.
  assert (Hbars : bars
                  = flat_map
                      (fun i =>
                         match js_get data i with
                         | Some d =>
                             [SmartChart.mkBar
                                d i (SmartChart.isVolAnomaly cfg data i)
                                (SmartChart.volMA cfg data i)
                                (SmartChart.maAt cfg data i)
                                (SmartChart.granvilleSignal cfg data i)]
                         | None => []
                         end)
                      (loop_range first (last - first + 1))).
  { unfold bars, SmartChart.visibleData, first, last.
    destruct (SmartChart.visibleRange st (SmartChart.len data)). reflexivity. }
  assert (Hin : forall i, In i (loop_range first (last - first + 1)) ->
                          (0 <= i < SmartChart.len data)%Z).
  { intros i Hi. apply loop_range_in in Hi. lia. }
  destruct (render_loop_bars cfg data _ Hin) as (Hmap & Hall).
  rewrite <- Hbars in Hmap, Hall.
  split; [exact Hf|]. split; [exact Hl|]. split; [exact Hmap|].
  split; [|split].
  - eapply Forall_impl; [|exact Hall]. simpl. intros b (H1 & _ & H3).
    apply loop_range_in in H3. split; [lia | exact H1].
  - eapply Forall_impl; [|exact Hall]. simpl. intros b (_ & _ & H3) Hgt.
    apply loop_range_in in H3.
    assert (Hj : (0 <= SmartChart.bar_index b - 1
                  < Z.of_nat (List.length data))%Z)
      by (unfold SmartChart.len in Hl; lia).
    destruct (js_get_in_range data _ Hj) as (d & Hd).
    destruct (js_get_in_range (SmartChart.maData cfg data)
                              (SmartChart.bar_index b - 1)) as (cell & Hc).
    { unfold SmartChart.maData. rewrite length_map, loop_range_length.
      unfold SmartChart.len. lia. }
    exists d, cell. split; [exact Hd | exact Hc].
  - intro Hz.
    rewrite <- (length_map SmartChart.bar_index), Hmap, loop_range_length.
    unfold first, last, SmartChart.visibleRange, SmartChart.visibleStartIndex,
      SmartChart.visibleEndIndex, Math_floor, Math_ceil; simpl.
    set (eff := SmartChart.effectiveOffset st (SmartChart.len data)).
    set (z := SmartChart.zoom st) in *.
    assert (Hcz : (0 <= Qceiling z)%Z).
    { rewrite <- (Qceiling_Z 0). apply Qceiling_resp_le. exact Hz. }
    destruct (Math_max_cases 0 eff) as [(Hpos & ->)|(Hneg & ->)].
    + assert (Hc : (Qceiling (eff + z) <= Qfloor eff + 1 + Qceiling z)%Z).
      { rewrite <- (Qceiling_Z (Qfloor eff + 1 + Qceiling z)).
        apply Qceiling_resp_le.
        rewrite !inject_Z_plus.
        pose proof (Qlt_floor eff) as H1. rewrite inject_Z_plus in H1.
        pose proof (Qle_ceiling z) as H2. lra. }
      assert (Hf0 : (0 <= Qfloor eff)%Z).
      { rewrite <- (Qfloor_Z 0). apply Qfloor_resp_le. exact Hpos. }
      lia.
    + assert (Hc : (Qceiling (eff + z) <= Qceiling z)%Z)
        by (apply Qceiling_resp_le; lra).
      change (Qfloor 0) with 0%Z. lia.
Qed.

Lemma visible_bars_are_the_range_witness :
  (Z.of_nat (List.length
               (SmartChart.visibleData Examples.cfg2 Examples.charted
                                       Examples.crossing))
   <= Qceiling (SmartChart.zoom Examples.charted) + 2)%Z.
Proof.
  apply (visible_bars_are_the_range Examples.cfg2 Examples.charted
                                    Examples.crossing).
  - discriminate.
  - discriminate.
Defined.

(** ** Coordinates and clicks *)

Lemma effectiveZoom_positive (st : SmartChart.State) :
  0 < SmartChart.zoom st -> 0 < SmartChartUI.effectiveZoom st.
Proof.
  intro Hz. unfold SmartChartUI.effectiveZoom, SmartChartUI.FUTURE_BARS.
  destruct (List.length (SmartChart.points st) =? 3)%nat.
  - setoid_replace (SmartChart.zoom st + 30 * (SmartChart.zoom st / 60))
      with (SmartChart.zoom st * (3 # 2)) by field. lra.
  - setoid_replace (SmartChart.zoom st + 5 * (SmartChart.zoom st / 60))
      with (SmartChart.zoom st * (13 # 12)) by field. lra.
Qed.

(** [getX] is affine in the index, with slope [CHART_WIDTH / effectiveZoom]. *)
Lemma getX_affine (st : SmartChart.State) (dataLength : Z) (i : Q) :
  0 < SmartChart.zoom st ->
  SmartChartUI.getX st dataLength i
  == (i - SmartChart.effectiveOffset st dataLength)
     * (SmartChartUI.CHART_WIDTH / SmartChartUI.effectiveZoom st).
Proof.
  intro Hz. pose proof (effectiveZoom_positive st Hz) as He.
  unfold SmartChartUI.getX. field. lra.
Qed.

Lemma slope_positive (st : SmartChart.State) :
  0 < SmartChart.zoom st ->
  0 < SmartChartUI.CHART_WIDTH / SmartChartUI.effectiveZoom st.
Proof.
  intro Hz. pose proof (effectiveZoom_positive st Hz) as He.
  apply Qlt_shift_div_l; [exact He|].
  unfold SmartChartUI.CHART_WIDTH, SmartChartUI.WIDTH,
    SmartChartUI.RIGHT_AXIS_WIDTH. lra.
Qed.






(** ** Marking pivots *)

Lemma pivot_of_candle_anchored (data : list CandleData.t) (p : ChartPoint.t) :
  pivot_of_candle data p -> anchored data p.
Proof. intros (d & H1 & H2 & _). exists d. auto. Qed.

Lemma consistent_intro (data : list CandleData.t) (pts : list ChartPoint.t)
      (sel : option Z) (off z : Q) (pd : Z) :
  (List.length pts <= 3)%nat -> roles_in_order pts ->
  Forall (pivot_of_candle data) pts ->
  match sel with
  | Some i => (0 <= i < SmartChart.len data)%Z
  | None => True
  end ->
  pivots_consistent data (SmartChart.mkState pts sel off z pd).
Proof. intros. repeat split; assumption. Qed.

Lemma click_keeps_consistency (data : list CandleData.t)
      (st : SmartChart.State) (isDragging isPinching : bool) (x svgWidth : Q) :
  pivots_consistent data st ->
  pivots_consistent data
    (SmartChartUI.handleSvgClick st (SmartChart.len data)
                                 isDragging isPinching x svgWidth).
Proof.
  intros Hc. pose proof Hc as (Hlen & Hroles & Hanch & Hsel).
  unfold SmartChartUI.handleSvgClick.
  destruct (isDragging || isPinching); [exact Hc|].
  destruct (SmartChart.len data =? 0)%Z; [exact Hc|].
  destruct (num_gt x _); [exact Hc|].
  cbv zeta.
  destruct ((0 <=? _)%Z && (_ <? _)%Z) eqn:E;
    apply consistent_intro; try assumption; try exact I.
  apply andb_true_iff in E. destruct E as (E1 & E2).
  apply Z.leb_le in E1. apply Z.ltb_lt in E2. lia.
Qed.

Lemma roles_in_order_snoc (pts : list ChartPoint.t) (p : ChartPoint.t) :
  (List.length pts < 3)%nat -> roles_in_order pts ->
  ChartPoint.type p = nth (List.length pts) [Tp0; Tp1; Tp2] Tp0 ->
  roles_in_order (pts ++ [p]).
Proof.
  unfold roles_in_order. intros Hlen Hroles Hp.
  rewrite map_app, length_app, Hroles. simpl. rewrite Hp.
  destruct pts as [|a [|b [|c rest]]]; simpl in *; try reflexivity; lia.
Qed.

Lemma roles_in_order_removelast (pts : list ChartPoint.t) :
  (List.length pts <= 3)%nat -> roles_in_order pts ->
  roles_in_order (removelast pts).
Proof.
  unfold roles_in_order. intros Hlen Hroles.
  destruct pts as [|a [|b [|c [|e rest]]]]; simpl in *;
    try reflexivity; try lia; congruence.
Qed.

Lemma Forall_removelast {A : Type} (P : A -> Prop) (l : list A) :
  Forall P l -> Forall P (removelast l).
Proof.
  induction l as [|a l IH]; intro H; simpl; [constructor|].
  inversion H as [|? ? Ha Hl]; subst.
  destruct l; [constructor|]. constructor; [exact Ha | apply IH; exact Hl].
Qed.

Lemma length_removelast_le {A : Type} (l : list A) :
  (List.length (removelast l) <= List.length l)%nat.
Proof.
  induction l as [|a l IH]; simpl; [lia|]. destruct l; simpl in *; lia.
Qed.

Lemma confirm_keeps_consistency (data : list CandleData.t)
      (st : SmartChart.State) :
  pivots_consistent data st ->
  exists st', SmartChartUI.confirmSetPoint st data = Some st'
              /\ pivots_consistent data st'.
Proof.
  intros Hc. pose proof Hc as (Hlen & Hroles & Hanch & Hsel).
  unfold SmartChartUI.confirmSetPoint.
  destruct (SmartChart.selection st) as [sel|] eqn:Es; [|eauto].
  unfold selection_in_range in Hsel. rewrite Es in Hsel.
  destruct (js_get_in_range data sel Hsel) as (d & Hd).
  destruct (SmartChartUI.getNextPointType st) as [next|] eqn:En; [|eauto].
  rewrite Hd. eexists. split; [reflexivity|].
  assert (Hnext : (List.length (SmartChart.points st) < 3)%nat
                  /\ NextPoint.type next
                     = nth (List.length (SmartChart.points st))
                           [Tp0; Tp1; Tp2] Tp0
                  /\ NextPoint.priceType next
                     = match NextPoint.type next with
                       | Tp1 => high
                       | _ => low
                       end).
  { unfold SmartChartUI.getNextPointType in En.
    destruct (List.length (SmartChart.points st)) as [|[|[|n]]];
      inversion En; subst; simpl; repeat split; lia. }
  destruct Hnext as (Hlt & Htype & Hprice).
  apply consistent_intro.
  - rewrite length_app. simpl. lia.
  - apply roles_in_order_snoc; [exact Hlt | exact Hroles | exact Htype].
  - apply Forall_app. split; [exact Hanch|].
    constructor; [|constructor].
    exists d. simpl. repeat split; [exact Hd|].
    rewrite Hprice. destruct (NextPoint.type next); reflexivity.
  - exact I.
Qed.

Lemma undo_keeps_consistency (data : list CandleData.t)
      (st : SmartChart.State) :
  pivots_consistent data st ->
  pivots_consistent data (SmartChartUI.handleUndo st).
Proof.
  intros (Hlen & Hroles & Hanch & Hsel). apply consistent_intro.
  - pose proof (length_removelast_le (SmartChart.points st)). lia.
  - apply roles_in_order_removelast; assumption.
  - apply Forall_removelast. exact Hanch.
  - exact I.
Qed.

Lemma step_keeps_consistency (data : list CandleData.t)
      (st : SmartChart.State) (a : PivotAction) :
  pivots_consistent data st ->
  exists st', pivot_step data st a = Some st' /\ pivots_consistent data st'.
Proof.
  intro Hc. destruct a as [x w| | |]; simpl.
  - eexists. split; [reflexivity|]. apply click_keeps_consistency. exact Hc.
  - apply confirm_keeps_consistency. exact Hc.
  - eexists. split; [reflexivity|]. apply undo_keeps_consistency. exact Hc.
  - eexists. split; [reflexivity|]. apply consistent_intro;
      [simpl; lia | reflexivity | constructor | exact I].
Qed.

(** X12: from a consistent pivot state, such as a chart without pivots,
    any sequence of clicks, confirmations, undos and clears runs without a
    TypeError and keeps the state consistent: at most three pivots, with the
    roles P0, P1,
    P2 in this order, each carrying the date of the candle at its index
    with that candle's low (P0, P2) or high (P1) as its price, and a
    selection that is empty or a valid candle index. *)
Theorem pivot_actions_keep_consistency
        (data : list CandleData.t) (st : SmartChart.State)
        (actions : list PivotAction) :
  pivots_consistent data st ->
  exists st', pivot_run data st actions = Some st'
              /\ pivots_consistent data st'.
Proof.
  revert st. induction actions as [|a actions IH]; intros st Hc; simpl.
  - eauto.
  - destruct (step_keeps_consistency data st a Hc) as (st1 & -> & Hc1).
    apply IH. exact Hc1.
Qed.

Lemma pivot_actions_keep_consistency_witness :
  exists st',
    pivot_run Examples.crossing (Examples.mounted 6)
              [Click 80 1300; Confirm; Click 100 1300; Confirm; Confirm; Undo]
    = Some st'
    /\ pivots_consistent Examples.crossing st'.
Proof.
  apply (pivot_actions_keep_consistency Examples.crossing (Examples.mounted 6)).
  apply consistent_intro; [simpl; lia | reflexivity | constructor | exact I].
Defined.

(** X13: with a candle selected and fewer than three pivots marked,
    confirming appends exactly one pivot, at the selected index, and clears
    the selection; undoing right after restores the pivots that were there
    before.  With three pivots marked a confirmation changes nothing. *)
Theorem confirm_then_undo
        (data : list CandleData.t) (st : SmartChart.State) (sel : Z) :
  SmartChart.selection st = Some sel ->
  (0 <= sel < SmartChart.len data)%Z ->
  ((List.length (SmartChart.points st) < 3)%nat ->
   exists st' p,
     SmartChartUI.confirmSetPoint st data = Some st'
     /\ SmartChart.points st' = SmartChart.points st ++ [p]
     /\ ChartPoint.index p = sel
     /\ SmartChart.selection st' = None
     /\ SmartChart.points (SmartChartUI.handleUndo st') = SmartChart.points st)
  /\ ((3 <= List.length (SmartChart.points st))%nat ->
      SmartChartUI.confirmSetPoint st data = Some st).
Proof.
  intros Hsel Hrange.
  destruct (js_get_in_range data sel Hrange) as (d & Hd).
  unfold SmartChartUI.confirmSetPoint, SmartChartUI.getNextPointType.
  rewrite Hsel. split; intro Hlen.
  - destruct (List.length (SmartChart.points st)) as [|[|[|n]]] eqn:El;
      try lia; rewrite Hd; eexists; eexists;
      (split; [reflexivity|]); simpl;
      repeat split; try reflexivity; apply removelast_last.
  - destruct (List.length (SmartChart.points st)) as [|[|[|n]]]; try lia.
    reflexivity.
Qed.

Lemma confirm_then_undo_witness :
  exists st' p,
    SmartChartUI.confirmSetPoint
      (SmartChart.mkState [] (Some 4%Z) 0 60 6) Examples.crossing = Some st'
    /\ SmartChart.points st' = [] ++ [p]
    /\ ChartPoint.index p = 4%Z
    /\ SmartChart.selection st' = None
    /\ SmartChart.points (SmartChartUI.handleUndo st') = [].
Proof.
  apply (confirm_then_undo Examples.crossing
                           (SmartChart.mkState [] (Some 4%Z) 0 60 6) 4).
  - reflexivity.
  - split; [discriminate | reflexivity].
  - simpl. lia.
Defined.

Lemma js_get_app_shift {A : Type} (older old : list A) (j : Z) (d : A) :
  js_get old j = Some d ->
  js_get (older ++ old) (j + Z.of_nat (List.length older)) = Some d.
Proof.
  intro H. apply js_get_nth in H. destruct H as (Hj & Hn).
  unfold js_get.
  replace (j + Z.of_nat (List.length older) <? 0)%Z with false
    by (symmetry; apply Z.ltb_ge; lia).
  rewrite nth_error_app2 by lia.
  replace (Z.to_nat (j + Z.of_nat (List.length older)) - List.length older)%nat
    with (Z.to_nat j) by lia.
  exact Hn.
Qed.

(** The selection after the effects of a prepend. *)
Lemma onDataLength_prepend_selection (st : SmartChart.State)
      (older old : list CandleData.t) :
  SmartChart.prevDataLen st = SmartChart.len old ->
  SmartChart.selection
    (SmartChart.onDataLength st (SmartChart.len (older ++ old)))
  = match SmartChart.selection st with
    | Some i => Some (i + SmartChart.len older)%Z
    | None => None
    end.
Proof.
  intro Hprev. unfold SmartChart.onDataLength, SmartChart.layoutEffect.
  rewrite Hprev, len_app.
  assert (Hlen : (0 <= SmartChart.len older)%Z /\ (0 <= SmartChart.len old)%Z)
    by (unfold SmartChart.len; lia).
  assert (Hpassive : forall s n, SmartChart.prevDataLen s = n ->
                                 SmartChart.passiveEffect s n = s).
  { intros s n Hs. unfold SmartChart.passiveEffect. rewrite Hs.
    destruct (0 <? n)%Z eqn:E0, (n =? 0)%Z eqn:E1; simpl; try reflexivity.
    apply Z.ltb_lt in E0. apply Z.eqb_eq in E1. lia. }
  destruct (SmartChart.len old <? SmartChart.len older + SmartChart.len old)%Z
    eqn:E.
  - rewrite Hpassive by reflexivity. simpl.
    replace (SmartChart.len older + SmartChart.len old - SmartChart.len old)%Z
      with (SmartChart.len older) by lia.
    reflexivity.
  - apply Z.ltb_ge in E.
    assert (H0 : SmartChart.len older = 0%Z) by lia.
    rewrite H0. simpl (0 + _)%Z. rewrite Z.ltb_irrefl.
    rewrite Hpassive by reflexivity. simpl.
    destruct (SmartChart.selection st); [f_equal; lia | reflexivity].
Qed.

(** The effects of a prepend, on a consistent pivot state. *)
Lemma prepend_consistent
      (st : SmartChart.State) (older old : list CandleData.t) :
  SmartChart.prevDataLen st = SmartChart.len old ->
  pivots_consistent old st ->
  let st' := SmartChart.onDataLength st (SmartChart.len (older ++ old)) in
  pivots_consistent (older ++ old) st'
  /\ map ChartPoint.date (SmartChart.points st')
     = map ChartPoint.date (SmartChart.points st).
Proof.
  intros Hprev (Hlen & Hroles & Hpiv & Hsel) st'.
  destruct (onDataLength_prepend st older old Hprev) as (_ & Hpts & _).
  pose proof (onDataLength_prepend_selection st older old Hprev) as Hs.
  fold st' in Hpts, Hs.
  split.
  - unfold pivots_consistent. rewrite Hpts, length_map.
    split; [exact Hlen|]. split; [|split].
    + unfold roles_in_order in *. rewrite length_map, map_map.
      simpl. exact Hroles.
    + apply Forall_map. eapply Forall_impl; [|exact Hpiv].
      intros p (d & Hd & Hdate & Hprice). exists d. simpl.
      split; [|split; assumption].
      apply js_get_app_shift. exact Hd.
    + unfold selection_in_range in *. rewrite Hs.
      destruct (SmartChart.selection st) as [i|]; [|exact I].
      rewrite len_app. unfold SmartChart.len in *. lia.
  - rewrite Hpts, map_map. reflexivity.
Qed.

(** X14: prepending older candles keeps the pivot state consistent.  After
    the effects have run on the longer sequence, every pivot again sits at
    the index of the candle it was taken from (same date, same price), the
    roles are unchanged, and a selected candle stays selected at its new
    index. *)
Theorem prepend_keeps_consistency
        (st : SmartChart.State) (older old : list CandleData.t) :
  SmartChart.prevDataLen st = SmartChart.len old ->
  pivots_consistent old st ->
  let st' := SmartChart.onDataLength st (SmartChart.len (older ++ old)) in
  pivots_consistent (older ++ old) st'
  /\ map ChartPoint.date (SmartChart.points st')
     = map ChartPoint.date (SmartChart.points st)
  /\ map ChartPoint.price (SmartChart.points st')
     = map ChartPoint.price (SmartChart.points st)
  /\ forall i, SmartChart.selection st = Some i ->
               SmartChart.selection st' = Some (i + SmartChart.len older)%Z
               /\ js_get (older ++ old) (i + SmartChart.len older)
                  = js_get old i.
Proof.
  intros Hprev Hc st'.
  destruct (prepend_consistent st older old Hprev Hc) as (H1 & H2).
  fold st' in H1, H2.
  destruct Hc as (_ & _ & _ & Hsel).
  destruct (onDataLength_prepend st older old Hprev) as (_ & Hpts & _).
  pose proof (onDataLength_prepend_selection st older old Hprev) as Hs.
  fold st' in Hpts, Hs.
  split; [exact H1|]. split; [exact H2|]. split.
  - rewrite Hpts, map_map. reflexivity.
  - intros i Hi. rewrite Hs, Hi. split; [reflexivity|].
    unfold selection_in_range in Hsel. rewrite Hi in Hsel.
    destruct (js_get_in_range old i Hsel) as (d & Hd).
    rewrite Hd. apply js_get_app_shift. exact Hd.
Qed.

Lemma prepend_keeps_consistency_witness :
  pivots_consistent
    (Examples.crossing_older ++ Examples.crossing)
    (SmartChart.onDataLength
       Examples.charted
       (SmartChart.len (Examples.crossing_older ++ Examples.crossing))).
Proof.
  apply (prepend_keeps_consistency Examples.charted Examples.crossing_older
                                   Examples.crossing).
  - reflexivity.
  - apply consistent_intro.
    + simpl. lia.
    + reflexivity.
    + apply Forall_cons.
      { exists (Examples.bar "2024-01-08" 10 1000). repeat split. }
      apply Forall_cons; [|apply Forall_nil].
      exists (Examples.bar "2024-01-09" 40 3000). repeat split.
    + exact I.
Defined.

(** ** The chart's own projections *)

(** X15: the chart's projection of three marked pivots agrees with the
    calculator.  Whenever the calculator accepts the pivot prices as P0,
    P1, P2 (without P3), the chart's wave-3, wave-4 and wave-5 prices are
    the calculator's w3Gold, w4Target and w5Target for the same ratio, and
    the chart's wave-2 retracement is the calculator's percentage. *)
Theorem chart_projection_matches_calculator
        (p0 p1 p2 : ChartPoint.t) (rest : list ChartPoint.t)
        (r : FibRatio) (cur : option Q) (prev : CalculationResult.t)
        (xScale yScale : Q -> Q) :
  let res :=
    Calculator.calculate
      (complete_inputs (ChartPoint.price p0) (ChartPoint.price p1)
                       (ChartPoint.price p2) None cur) r prev in
  CalculationResult.isValid res = true ->
  exists pr pct,
    SmartChartUI.projections (p0 :: p1 :: p2 :: rest) r xScale yScale
    = Some pr
    /\ SmartChartUI.Projection.price (SmartChartUI.Projection.p3 pr)
       = CalculationResult.w3Gold res
    /\ SmartChartUI.Projection.price (SmartChartUI.Projection.p4 pr)
       = CalculationResult.w4Target res
    /\ SmartChartUI.Projection.price (SmartChartUI.Projection.p5 pr)
       = CalculationResult.w5Target res
    /\ SmartChartUI.WaveStats.w2Retrace
         (SmartChartUI.waveStats (p0 :: p1 :: p2 :: rest)) = Some pct
    /\ pct == CalculationResult.w2RetracementPct res.
Proof.
  intros res Hvalid.
  destruct (calculate_valid_inv _ _ _ Hvalid)
    as (a & b & c & Ha & Hb & Hc & H02 & H21 & _).
  simpl in Ha, Hb, Hc.
  injection Ha as <-. injection Hb as <-. injection Hc as <-.
  pose proof (calculate_valid _ _ _ None cur r prev H02 H21 I) as E.
  fold res in E. rewrite E. clear E Hvalid res.
  set (P0 := ChartPoint.price p0) in *.
  set (P1 := ChartPoint.price p1) in *.
  set (P2 := ChartPoint.price p2) in *.
  assert (Hh : Qabs (P1 - P0) == P1 - P0) by (apply Qabs_pos; lra).
  assert (Hd : Qabs (P1 - P2) == P1 - P2) by (apply Qabs_pos; lra).
  assert (Hnz : Qeq_bool (Qabs (P1 - P0)) 0 = false).
  { destruct (Qeq_bool (Qabs (P1 - P0)) 0) eqn:E; [|reflexivity].
    apply Qeq_bool_iff in E. lra. }
  unfold SmartChartUI.projections, SmartChartUI.waveStats.
  fold P0 P1 P2. rewrite Hnz.
  destruct (SmartChartUI.projectedIndices p0 p1 p2) as ((i3 & i4) & i5).
  eexists. eexists. simpl.
  repeat split; try reflexivity.
  rewrite Hh, Hd. reflexivity.
Qed.

Lemma chart_projection_matches_calculator_witness :
  exists pr pct,
    SmartChartUI.projections
      [ChartPoint.mk 0 100 "d0" Tp0; ChartPoint.mk 9 150 "d9" Tp1;
       ChartPoint.mk 14 120 "d14" Tp2] R05 (fun i => i) (fun p => p)
    = Some pr
    /\ SmartChartUI.Projection.price (SmartChartUI.Projection.p3 pr)
       = CalculationResult.w3Gold Examples.resultA
    /\ SmartChartUI.Projection.price (SmartChartUI.Projection.p4 pr)
       = CalculationResult.w4Target Examples.resultA
    /\ SmartChartUI.Projection.price (SmartChartUI.Projection.p5 pr)
       = CalculationResult.w5Target Examples.resultA
    /\ SmartChartUI.WaveStats.w2Retrace
         (SmartChartUI.waveStats
            [ChartPoint.mk 0 100 "d0" Tp0; ChartPoint.mk 9 150 "d9" Tp1;
             ChartPoint.mk 14 120 "d14" Tp2]) = Some pct
    /\ pct == CalculationResult.w2RetracementPct Examples.resultA.
Proof.
  apply (chart_projection_matches_calculator
           (ChartPoint.mk 0 100 "d0" Tp0) (ChartPoint.mk 9 150 "d9" Tp1)
           (ChartPoint.mk 14 120 "d14" Tp2) [] R05 None
           Calculator.INITIAL_RESULT (fun i => i) (fun p => p)).
  reflexivity.
Defined.

Lemma getX_increasing (st : SmartChart.State) (dataLength : Z) (i j : Q) :
  0 < SmartChart.zoom st -> i < j ->
  SmartChartUI.getX st dataLength i < SmartChartUI.getX st dataLength j.
Proof.
  intros Hz Hij.
  rewrite (getX_affine st dataLength i Hz), (getX_affine st dataLength j Hz).
  apply Qmult_lt_compat_r; [apply slope_positive; exact Hz | lra].
Qed.

(** X16: the projected turning points come strictly one after the other
    in time: wave 3 ends at least 5 candles (and at least 1.618 times the
    length of wave 1, rounded down) after P2, wave 4 at least 3 candles and
    at least the length of wave 1 after that, wave 5 at least 5 candles and
    at least the length of wave 1 later still.  Drawn with a positive zoom
    they therefore appear from left to right. *)
Theorem projected_points_in_time_order
        (st : SmartChart.State) (dataLength : Z)
        (p0 p1 p2 : ChartPoint.t) (rest : list ChartPoint.t)
        (r : FibRatio) (yScale : Q -> Q) :
  0 < SmartChart.zoom st ->
  let t1 := Z.abs (ChartPoint.index p1 - ChartPoint.index p0) in
  let '(i3, i4, i5) := SmartChartUI.projectedIndices p0 p1 p2 in
  (ChartPoint.index p2 + Z.max 5 t1 <= i3)%Z
  /\ (i3 + Z.max 3 t1 <= i4)%Z
  /\ (i4 + Z.max 5 t1 <= i5)%Z
  /\ exists pr,
       SmartChartUI.projections (p0 :: p1 :: p2 :: rest) r
                                (SmartChartUI.getX st dataLength) yScale
       = Some pr
       /\ SmartChartUI.getX st dataLength (inject_Z (ChartPoint.index p2))
          < SmartChartUI.Projection.x (SmartChartUI.Projection.p3 pr)
       /\ SmartChartUI.Projection.x (SmartChartUI.Projection.p3 pr)
          < SmartChartUI.Projection.x (SmartChartUI.Projection.p4 pr)
       /\ SmartChartUI.Projection.x (SmartChartUI.Projection.p4 pr)
          < SmartChartUI.Projection.x (SmartChartUI.Projection.p5 pr).
Proof.
  intros Hz t1.
  unfold SmartChartUI.projections.
  destruct (SmartChartUI.projectedIndices p0 p1 p2) as ((i3 & i4) & i5) eqn:E.
  unfold SmartChartUI.projectedIndices in E. fold t1 in E.
  injection E as <- <- <-.
  assert (Ht : (0 <= t1)%Z) by (unfold t1; lia).
  rewrite Z.div_1_r.
  assert (Hf3 : (t1 <= t1 * 1618 / 1000)%Z)
    by (apply Z.div_le_lower_bound; lia).
  split; [lia|]. split; [lia|]. split; [lia|].
  eexists. split; [reflexivity|]. simpl.
  repeat split; apply getX_increasing; try exact Hz;
    rewrite <- Zlt_Qlt; lia.
Qed.

Lemma projected_points_in_time_order_witness :
  let '(i3, i4, i5) :=
    SmartChartUI.projectedIndices
      (ChartPoint.mk 0 100 "d0" Tp0) (ChartPoint.mk 9 150 "d9" Tp1)
      (ChartPoint.mk 14 120 "d14" Tp2) in
  (14 + Z.max 5 9 <= i3)%Z /\ (i3 + Z.max 3 9 <= i4)%Z
  /\ (i4 + Z.max 5 9 <= i5)%Z.
Proof.
  pose proof (projected_points_in_time_order
                Examples.scenarioD 200
                (ChartPoint.mk 0 100 "d0" Tp0) (ChartPoint.mk 9 150 "d9" Tp1)
                (ChartPoint.mk 14 120 "d14" Tp2) [] R05 (fun p => p) eq_refl)
    as H.
  cbv zeta in H.
  destruct (SmartChartUI.projectedIndices _ _ _) as ((i3 & i4) & i5).
  destruct H as (H3 & H4 & H5 & _).
  repeat split; assumption.
Defined.

(** Every bar handed to the renderer is a candle of the data, at its
    own index. *)
Lemma visible_bars_in_data (cfg : SmartChart.Config) (st : SmartChart.State)
      (data : list CandleData.t) (b : SmartChart.VisibleBar) :
  In b (SmartChart.visibleData cfg st data) ->
  In (SmartChart.candle b) data
  /\ js_get data (SmartChart.bar_index b) = Some (SmartChart.candle b).
Proof.
  intro Hb. unfold SmartChart.visibleData in Hb.
  destruct (SmartChart.visibleRange st (SmartChart.len data)) as (first, last).
  apply in_flat_map in Hb. destruct Hb as (i & _ & Hi).
  destruct (js_get data i) as [d|] eqn:Hd; [|destruct Hi].
  destruct Hi as [<-|[]]. simpl. split; [|exact Hd].
  apply js_get_nth in Hd. destruct Hd as (_ & Hn).
  eapply nth_error_In. exact Hn.
Qed.

(** ** The price axis *)

Lemma below_step (x : Q) (bound : option Q) :
  exists m, (if SmartChartUI.below x bound then Some x else bound) = Some m
            /\ m <= x
            /\ forall b, bound = Some b -> m <= b.
Proof.
  destruct bound as [b|]; simpl.
  - destruct (num_lt x b) eqn:E.
    + apply num_lt_true in E. exists x. repeat split; try lra.
      intros b' Hb. injection Hb as <-. lra.
    + apply num_lt_false in E. exists b. repeat split; try lra.
      intros b' Hb. injection Hb as <-. lra.
  - exists x. repeat split; try lra. discriminate.
Qed.

Lemma above_step (x : Q) (bound : option Q) :
  exists M, (if SmartChartUI.above x bound then Some x else bound) = Some M
            /\ x <= M
            /\ forall b, bound = Some b -> b <= M.
Proof.
  destruct bound as [b|]; simpl.
  - destruct (num_gt x b) eqn:E.
    + apply num_gt_true in E. exists x. repeat split; try lra.
      intros b' Hb. injection Hb as <-. lra.
    + apply num_gt_false in E. exists b. repeat split; try lra.
      intros b' Hb. injection Hb as <-. lra.
  - exists x. repeat split; try lra. discriminate.
Qed.

(** One iteration leaves both bounds finite, around the bar it visited and
    around the bounds it started from. *)
Lemma extent_covers_widen (cfg : SmartChart.Config) (m M m' M' : Q)
      (b : SmartChart.VisibleBar) :
  extent_covers cfg m M b -> m' <= m -> M <= M' ->
  extent_covers cfg m' M' b.
Proof.
  intros (H1 & H2 & H3) Hm HM. split; [lra|]. split; [lra|].
  intros Hen ma Hma. destruct (H3 Hen ma Hma). split; lra.
Qed.

(** One iteration leaves both bounds finite, around the bar it visited and
    around the bounds it started from. *)
Lemma extentStep_covers (cfg : SmartChart.Config) (acc : option Q * option Q)
      (b : SmartChart.VisibleBar) :
  exists m M,
    SmartChartUI.extentStep cfg acc b = (Some m, Some M)
    /\ extent_covers cfg m M b
    /\ (forall m0, fst acc = Some m0 -> m <= m0)
    /\ (forall M0, snd acc = Some M0 -> M0 <= M).
Proof.
  unfold SmartChartUI.extentStep.
  destruct (below_step (CandleData.low (SmartChart.candle b)) (fst acc))
    as (m1 & -> & Hm1 & Hm1').
  destruct (above_step (CandleData.high (SmartChart.candle b)) (snd acc))
    as (M1 & -> & HM1 & HM1').
  destruct (SmartChart.granvilleEnabled cfg) eqn:Een.
  - destruct (SmartChart.bar_maValue b) as [ma|] eqn:Ema.
    + destruct (below_step ma (Some m1)) as (m2 & -> & Hm2 & Hm2').
      destruct (above_step ma (Some M1)) as (M2 & -> & HM2 & HM2').
      specialize (Hm2' m1 eq_refl). specialize (HM2' M1 eq_refl).
      exists m2, M2. split; [reflexivity|]. split; [|split].
      * split; [lra|]. split; [lra|].
        intros _ ma' Hma'. rewrite Ema in Hma'. injection Hma' as <-.
        split; assumption.
      * intros m0 H0. specialize (Hm1' m0 H0). lra.
      * intros M0 H0. specialize (HM1' M0 H0). lra.
    + exists m1, M1. split; [reflexivity|]. split; [|split; assumption].
      split; [lra|]. split; [lra|]. intros _ ma Hma. rewrite Ema in Hma.
      discriminate.
  - exists m1, M1. split; [reflexivity|]. split; [|split; assumption].
    split; [lra|]. split; [lra|]. intro H. rewrite Een in H. discriminate H.
Qed.

Lemma extent_fold_covers (cfg : SmartChart.Config)
      (bars : list SmartChart.VisibleBar) :
  forall acc,
    bars <> [] ->
    exists m M,
      fold_left (SmartChartUI.extentStep cfg) bars acc = (Some m, Some M)
      /\ Forall (fun b => extent_covers cfg m M b) bars
      /\ (forall m0, fst acc = Some m0 -> m <= m0)
      /\ (forall M0, snd acc = Some M0 -> M0 <= M).
Proof.
  induction bars as [|b bars IH]; intros acc Hne; [congruence|].
  simpl.
  destruct (extentStep_covers cfg acc b) as (m1 & M1 & E1 & Hb & Hlo & Hhi).
  rewrite E1.
  destruct bars as [|b' bars'].
  - exists m1, M1. simpl. split; [reflexivity|]. split; [|split; assumption].
    constructor; [exact Hb | constructor].
  - destruct (IH (Some m1, Some M1)) as (m & M & E & Hall & Hlo' & Hhi');
      [discriminate|].
    specialize (Hlo' m1 eq_refl). specialize (Hhi' M1 eq_refl).
    exists m, M. split; [exact E|]. split; [|split].
    + constructor; [|exact Hall].
      apply (extent_covers_widen cfg m1 M1); assumption.
    + intros m0 H0. specialize (Hlo m0 H0). lra.
    + intros M0 H0. specialize (Hhi M0 H0). lra.
Qed.

(** [getY] on an extent: decreasing, and inside the chart height. *)
Lemma getY_inside (min max p q : Q) :
  min <= p -> p <= q -> q <= max ->
  0 <= SmartChartUI.getY min max q
  /\ SmartChartUI.getY min max q <= SmartChartUI.getY min max p
  /\ SmartChartUI.getY min max p <= SmartChartUI.CHART_H.
Proof.
  intros Hp Hpq Hq. unfold SmartChartUI.getY.
  unfold SmartChartUI.CHART_H, SmartChartUI.HEIGHT,
    SmartChartUI.VOLUME_HEIGHT_RATIO, SmartChartUI.PADDING_TOP.
  set (pm := min - (max - min) * 0.15).
  set (vh := if Qeq_bool (max + (max - min) * 0.15 - pm) 0 then 1
             else max + (max - min) * 0.15 - pm).
  assert (Hvh : 0 < vh /\ q - pm <= vh).
  { unfold vh, pm.
    destruct (Qeq_bool (max + (max - min) * 0.15
                        - (min - (max - min) * 0.15)) 0) eqn:E.
    - apply Qeq_bool_iff in E. split; lra.
    - apply Qeq_bool_neq in E. split; lra. }
  destruct Hvh as (Hvh & Hqv).
  assert (Hpm : 0 <= p - pm) by (unfold pm; lra).
  assert (H0 : 0 <= (p - pm) / vh)
    by (apply Qle_shift_div_l; [exact Hvh | lra]).
  assert (H1 : (q - pm) / vh <= 1)
    by (apply Qle_shift_div_r; [exact Hvh | lra]).
  assert (Hmono : (p - pm) / vh <= (q - pm) / vh).
  { unfold Qdiv. apply Qmult_le_compat_r; [lra|].
    apply Qinv_le_0_compat. lra. }
  repeat split; lra.
Qed.

(** X17: for a moving-average window of at least one bar, the price extent
    of the render is always defined: it is 0..100 when no bar is visible,
    and otherwise spans every visible candle's low and high and, with the
    moving average shown, its value.  On that extent [getY] is decreasing
    and stays between 0 and the chart height 400, so every wick and the
    average line are drawn inside the price area, higher prices further
    up. *)
Theorem prices_drawn_inside_chart
        (cfg : SmartChart.Config) (st : SmartChart.State)
        (data : list CandleData.t) :
  (1 <= SmartChart.maLength cfg)%Z ->
  Forall (fun d => CandleData.low d <= CandleData.high d) data ->
  let bars := SmartChart.visibleData cfg st data in
  exists min max,
    SmartChartUI.priceExtent cfg st data = Some (min, max)
    /\ min <= max
    /\ (bars = [] -> min = 0 /\ max = 100)
    /\ Forall (fun b => extent_covers cfg min max b) bars
    /\ SmartChartUI.CHART_H == 400
    /\ forall p q, min <= p -> p <= q -> q <= max ->
         0 <= SmartChartUI.getY min max q
         /\ SmartChartUI.getY min max q <= SmartChartUI.getY min max p
         /\ SmartChartUI.getY min max p <= SmartChartUI.CHART_H.
Proof.
  intros _ Hwf bars. unfold SmartChartUI.priceExtent. fold bars.
  destruct bars as [|b bars'] eqn:Eb.
  - exists 0, 100. simpl.
    split; [reflexivity|]. split; [discriminate|].
    split; [intros _; split; reflexivity|]. split; [apply Forall_nil|].
    split; [reflexivity|]. intros p q. apply getY_inside.
  - destruct (extent_fold_covers cfg (b :: bars') (None, None))
      as (m & M & E & Hall & _); [discriminate|].
    rewrite E. exists m, M. split; [reflexivity|].
    assert (HmM : m <= M).
    { inversion Hall as [|? ? (H1 & H2 & _) _]; subst.
      assert (Hb : In b (SmartChart.visibleData cfg st data))
        by (fold bars; rewrite Eb; left; reflexivity).
      destruct (visible_bars_in_data cfg st data b Hb) as (Hin & _).
      pose proof (proj1 (Forall_forall _ _) Hwf _ Hin) as Hlh.
      simpl in Hlh. lra. }
    split; [exact HmM|]. split; [discriminate|]. split; [exact Hall|].
    split; [reflexivity|].
    intros p q; apply getY_inside.
Qed.

Lemma prices_drawn_inside_chart_witness :
  exists min max,
    SmartChartUI.priceExtent Examples.cfg2 Examples.charted Examples.crossing
    = Some (min, max)
    /\ min <= max.
Proof.
  destruct (prices_drawn_inside_chart Examples.cfg2 Examples.charted
                                      Examples.crossing)
    as (min & max & He & Hle & _).
  - discriminate.
  - repeat constructor; discriminate.
  - exists min, max. split; [exact He | exact Hle].
Defined.

(** ** The moving average *)

(** The loop [for (k = 0; k < n; k++) sum += data[i - k].close] adds up
    the closes of the window [data[i-n+1 .. i]]. *)
Lemma close_window_sum (data : list CandleData.t) (n : nat) :
  forall m : nat,
    (m + n <= List.length data)%nat ->
    Qsum (map (fun k => SmartChart.closeAt
                          data (Z.of_nat m + Z.of_nat n - 1 - k)%Z)
              (loop_range 0 (Z.of_nat n)))
    == Qsum (map CandleData.close (firstn n (skipn m data))).
Proof.
  induction n as [|n IH]; intros m Hm.
  - reflexivity.
  - rewrite loop_range_succ, map_app, Qsum_app.
    destruct (nth_error data m) as [d|] eqn:Hd.
    2:{ apply nth_error_None in Hd. lia. }
    rewrite (skipn_cons_nth data m d Hd).
    cbn [firstn map Qsum fold_right].
    assert (Hlast : SmartChart.closeAt
                      data (Z.of_nat m + Z.of_nat (S n) - 1
                            - (0 + Z.of_nat n))%Z
                    = CandleData.close d).
    { unfold SmartChart.closeAt, js_get.
      replace (Z.of_nat m + Z.of_nat (S n) - 1 - (0 + Z.of_nat n))%Z
        with (Z.of_nat m) by lia.
      replace (Z.of_nat m <? 0)%Z with false
        by (symmetry; apply Z.ltb_ge; lia).
      rewrite Nat2Z.id, Hd. reflexivity. }
    rewrite Hlast.
    rewrite <- (IH (S m)) by lia.
    rewrite (map_ext
               (fun k => SmartChart.closeAt
                           data (Z.of_nat m + Z.of_nat (S n) - 1 - k)%Z)
               (fun k => SmartChart.closeAt
                           data (Z.of_nat (S m) + Z.of_nat n - 1 - k)%Z)).
    + ring.
    + intro k. f_equal. lia.
Qed.

(** X18: with the signals enabled and a window of N >= 1 bars, the moving
    average at bar i is defined exactly from bar N-1 on and is then the
    arithmetic mean of the N closes ending at bar i, the bar's own close
    included (unlike the volume average, which stops before the bar);
    with the signals disabled it is undefined everywhere. *)
Theorem moving_average_is_window_mean
        (cfg : SmartChart.Config) (data : list CandleData.t) (i : Z) :
  (0 <= i < SmartChart.len data)%Z ->
  (1 <= SmartChart.maLength cfg)%Z ->
  let N := SmartChart.maLength cfg in
  (SmartChart.granvilleEnabled cfg = true -> (N - 1 <= i)%Z ->
   Z.of_nat (List.length (window_closes data i N)) = N
   /\ nth_error (window_closes data i N) (Z.to_nat (N - 1))
      = Some (SmartChart.closeAt data i)
   /\ exists v, SmartChart.maAt cfg data i = Some v
                /\ v == mean (window_closes data i N))
  /\ (SmartChart.granvilleEnabled cfg = false \/ (i < N - 1)%Z ->
      SmartChart.maAt cfg data i = None).
Proof.
  intros Hi HN N. rewrite (maAt_in_range cfg data i Hi).
  unfold SmartChart.maCell. fold N. split.
  - intros Hen Hle. rewrite Hen.
    replace (N - 1 <=? i)%Z with true by (symmetry; apply Z.leb_le; lia).
    simpl andb. cbv iota.
    assert (Hlen : Z.of_nat (List.length (window_closes data i N)) = N).
    { unfold window_closes, SmartChart.len in *.
      rewrite length_map, length_firstn, length_skipn. lia. }
    split; [exact Hlen|]. split.
    + unfold window_closes. rewrite nth_error_map.
      rewrite nth_error_firstn.
      replace (Z.to_nat (N - 1) <? Z.to_nat N)%nat with true
        by (symmetry; apply Nat.ltb_lt; lia).
      rewrite nth_error_skipn.
      replace (Z.to_nat (i - N + 1) + Z.to_nat (N - 1))%nat
        with (Z.to_nat i) by lia.
      unfold SmartChart.closeAt, js_get.
      replace (i <? 0)%Z with false by (symmetry; apply Z.ltb_ge; lia).
      destruct (nth_error data (Z.to_nat i)) as [d|] eqn:Hd; [reflexivity|].
      apply nth_error_None in Hd. unfold SmartChart.len in Hi. lia.
    + eexists. split; [reflexivity|].
      unfold mean. rewrite Hlen.
      apply Qmult_comp; [|reflexivity].
      rewrite fold_left_Qsum, Qplus_0_l.
      unfold window_closes.
      set (n := Z.to_nat N).
      set (m := Z.to_nat (i - N + 1)).
      replace N with (Z.of_nat n) by (unfold n; lia).
      rewrite <- (close_window_sum data n m)
        by (unfold n, m, SmartChart.len in *; lia).
      erewrite map_ext; [reflexivity|].
      intro k. simpl. f_equal. unfold n, m. lia.
  - intros [Hdis|Hlt].
    + rewrite Hdis. reflexivity.
    + replace (N - 1 <=? i)%Z with false by (symmetry; apply Z.leb_gt; lia).
      rewrite andb_false_r. reflexivity.
Qed.

Lemma moving_average_is_window_mean_witness :
  exists v, SmartChart.maAt Examples.cfg5 Examples.crossing 5 = Some v
            /\ v == mean (window_closes Examples.crossing 5 5).
Proof.
  destruct (moving_average_is_window_mean Examples.cfg5 Examples.crossing 5)
    as (H & _).
  - split; [discriminate | reflexivity].
  - discriminate.
  - destruct H as (_ & _ & Hv); [reflexivity | discriminate | exact Hv].
Defined.

(** ** Loading older history *)

(** The batch [handleLoadMore] keeps: the received candles whose date is
    not in the data yet. *)
Lemma fresh_batch_spec (parsedData prev : list CandleData.t)
      (d : CandleData.t) :
  In d (filter (fun d => negb (existsb (String.eqb (CandleData.date d))
                                       (map CandleData.date prev)))
               parsedData)
  <-> In d parsedData
      /\ ~ In (CandleData.date d) (map CandleData.date prev).
Proof.
  rewrite filter_In, negb_true_iff. split; intros (H1 & H2); split; auto.
  - intro Hin. assert (E : existsb (String.eqb (CandleData.date d))
                                   (map CandleData.date prev) = true).
    { apply existsb_exists. exists (CandleData.date d).
      split; [exact Hin | apply String.eqb_refl]. }
    congruence.
  - destruct (existsb _ _) eqn:E; [|reflexivity].
    apply existsb_exists in E. destruct E as (s & Hs & Heq).
    apply String.eqb_eq in Heq. subst s. contradiction.
Qed.

Lemma in_skipn {A : Type} (n : nat) (l : list A) (x : A) :
  In x (skipn n l) -> In x l.
Proof.
  intro H. rewrite <- (firstn_skipn n l). apply in_or_app. right. exact H.
Qed.

(** [mergeHistory] only ever prepends: the data it returns is some of the
    fresh candles followed by all of [prev]. *)
Lemma mergeHistory_prepends (parsedData prev : list CandleData.t) :
  (List.length prev <= StockAnalyzer.MAX_BARS)%nat ->
  exists older,
    StockAnalyzer.mergeHistory parsedData prev = older ++ prev
    /\ (List.length (older ++ prev) <= StockAnalyzer.MAX_BARS)%nat
    /\ (forall d, In d older ->
                  In d parsedData
                  /\ ~ In (CandleData.date d) (map CandleData.date prev))
    /\ ((List.length
           (filter (fun d => negb (existsb (String.eqb (CandleData.date d))
                                           (map CandleData.date prev)))
                   parsedData)
         + List.length prev <= StockAnalyzer.MAX_BARS)%nat ->
        forall d, In d parsedData ->
                  ~ In (CandleData.date d) (map CandleData.date prev) ->
                  In d older).
Proof.
  intro Hprev. unfold StockAnalyzer.mergeHistory.
  set (fresh := filter _ parsedData).
  set (MAX := StockAnalyzer.MAX_BARS) in *. clearbody MAX.
  rewrite length_app.
  destruct (MAX <? List.length fresh + List.length prev)%nat eqn:E.
  - apply Nat.ltb_lt in E.
    exists (skipn (List.length fresh + List.length prev - MAX) fresh).
    split; [|split; [|split]].
    + rewrite skipn_app.
      replace (List.length fresh + List.length prev - MAX
               - List.length fresh)%nat with 0%nat by lia.
      reflexivity.
    + rewrite length_app, length_skipn. lia.
    + intros d Hd. apply (fresh_batch_spec parsedData prev d).
      fold fresh. eapply in_skipn. exact Hd.
    + intro Hfit. lia.
  - apply Nat.ltb_ge in E. exists fresh.
    split; [reflexivity|]. split; [rewrite length_app; exact E|]. split.
    + intros d Hd. apply (fresh_batch_spec parsedData prev d). exact Hd.
    + intros _ d H1 H2. apply (fresh_batch_spec parsedData prev d). auto.
Qed.

(** X19: loading older history only ever prepends.  With at most MAX_BARS
    (3000) candles loaded, the merged data is a batch of received candles
    followed by all the candles that were there, in their order; the batch
    holds only received candles whose date was not loaded yet, all of them
    when the total fits, and the merged data never exceeds MAX_BARS.  An
    empty reply changes nothing. *)
Theorem load_more_prepends (parsedData prev : list CandleData.t) :
  (List.length prev <= StockAnalyzer.MAX_BARS)%nat ->
  StockAnalyzer.loadedMore [] prev = prev
  /\ exists older,
       StockAnalyzer.loadedMore parsedData prev = older ++ prev
       /\ (List.length (older ++ prev) <= StockAnalyzer.MAX_BARS)%nat
       /\ (forall d, In d older ->
                     In d parsedData
                     /\ ~ In (CandleData.date d) (map CandleData.date prev))
       /\ ((List.length parsedData + List.length prev
            <= StockAnalyzer.MAX_BARS)%nat ->
           forall d, In d parsedData ->
                     ~ In (CandleData.date d) (map CandleData.date prev) ->
                     In d older).
Proof.
  intro Hprev. split; [reflexivity|].
  destruct parsedData as [|c parsed'].
  - exists []. simpl. repeat split; try assumption; intros; contradiction.
  - change (StockAnalyzer.loadedMore (c :: parsed') prev)
      with (StockAnalyzer.mergeHistory (c :: parsed') prev).
    destruct (mergeHistory_prepends (c :: parsed') prev Hprev)
      as (older & E & Hlen & Hin & Hall).
    exists older. split; [exact E|]. split; [exact Hlen|].
    split; [exact Hin|].
    intro Hfit. apply Hall.
    pose proof (filter_length_le
                  (fun d => negb (existsb (String.eqb (CandleData.date d))
                                          (map CandleData.date prev)))
                  (c :: parsed')).
    lia.
Qed.

Lemma load_more_prepends_witness :
  exists older,
    StockAnalyzer.loadedMore Examples.crossing_older Examples.crossing
    = older ++ Examples.crossing.
Proof.
  destruct (load_more_prepends Examples.crossing_older Examples.crossing)
    as (_ & older & E & _).
  - unfold StockAnalyzer.MAX_BARS. simpl. lia.
  - exists older. exact E.
Defined.

Lemma NoDup_skipn {A : Type} (n : nat) (l : list A) :
  NoDup l -> NoDup (skipn n l).
Proof.
  intro H. rewrite <- (firstn_skipn n l) in H.
  apply NoDup_app_remove_l in H. exact H.
Qed.

Lemma NoDup_map_filter {A B : Type} (g : A -> B) (f : A -> bool)
      (l : list A) :
  NoDup (map g l) -> NoDup (map g (filter f l)).
Proof.
  induction l as [|a l IH]; intro H; simpl; [constructor|].
  inversion H as [|? ? Hn Hl]; subst.
  destruct (f a); simpl; [|apply IH; exact Hl].
  constructor; [|apply IH; exact Hl].
  intro Hin. apply Hn. apply in_map_iff in Hin.
  destruct Hin as (x & Hx & Hf). apply filter_In in Hf.
  apply in_map_iff. exists x. tauto.
Qed.

Lemma NoDup_app_disjoint {A : Type} (l1 l2 : list A) :
  NoDup l1 -> NoDup l2 -> (forall x, In x l1 -> ~ In x l2) ->
  NoDup (l1 ++ l2).
Proof.
  induction l1 as [|a l1 IH]; intros H1 H2 Hd; simpl; [exact H2|].
  inversion H1 as [|? ? Hn Hl]; subst. constructor.
  - intro Hin. apply in_app_or in Hin. destruct Hin as [Hin|Hin].
    + contradiction.
    + apply (Hd a); [left; reflexivity | exact Hin].
  - apply IH; [exact Hl | exact H2|].
    intros x Hx. apply Hd. right. exact Hx.
Qed.

(** X20: loading older history keeps the dates distinct: if no date occurs
    twice in the loaded data and none occurs twice in the reply, none
    occurs twice in the merged data, whatever the two have in common. *)
Theorem load_more_keeps_dates_distinct
        (parsedData prev : list CandleData.t) :
  NoDup (map CandleData.date prev) ->
  NoDup (map CandleData.date parsedData) ->
  NoDup (map CandleData.date (StockAnalyzer.loadedMore parsedData prev)).
Proof.
  intros Hprev Hparsed.
  destruct parsedData as [|c parsed']; [exact Hprev|].
  change (StockAnalyzer.loadedMore (c :: parsed') prev)
    with (StockAnalyzer.mergeHistory (c :: parsed') prev).
  unfold StockAnalyzer.mergeHistory.
  set (fresh := filter _ (c :: parsed')).
  assert (Hall : NoDup (map CandleData.date (fresh ++ prev))).
  { rewrite map_app. apply NoDup_app_disjoint.
    - apply NoDup_map_filter. exact Hparsed.
    - exact Hprev.
    - intros s Hs. apply in_map_iff in Hs. destruct Hs as (d & <- & Hd).
      apply (fresh_batch_spec (c :: parsed') prev d). exact Hd. }
  destruct (StockAnalyzer.MAX_BARS <? List.length (fresh ++ prev))%nat;
    [|exact Hall].
  rewrite <- skipn_map. apply NoDup_skipn. exact Hall.
Qed.

Lemma load_more_keeps_dates_distinct_witness :
  NoDup (map CandleData.date
             (StockAnalyzer.loadedMore
                (Examples.crossing_older ++ [Examples.bar "2024-01-02" 20 1000])
                Examples.crossing)).
Proof.
  apply load_more_keeps_dates_distinct.
  - repeat constructor; simpl; intuition discriminate.
  - repeat constructor; simpl; intuition discriminate.
Defined.

(** X21: loading older history under a chart with marked pivots keeps
    them on their candles.  With the pivot state consistent over the
    loaded data, at most MAX_BARS candles loaded and the chart having seen
    that length, the state after the merge and the chart's effects is
    consistent over the merged data: every pivot has moved to the new index
    of its own candle. *)
Theorem load_more_keeps_pivots
        (st : SmartChart.State) (parsedData prev : list CandleData.t) :
  (List.length prev <= StockAnalyzer.MAX_BARS)%nat ->
  SmartChart.prevDataLen st = SmartChart.len prev ->
  pivots_consistent prev st ->
  let data := StockAnalyzer.loadedMore parsedData prev in
  let st' := SmartChart.onDataLength st (SmartChart.len data) in
  pivots_consistent data st'
  /\ map ChartPoint.date (SmartChart.points st')
     = map ChartPoint.date (SmartChart.points st)
  /\ map ChartPoint.index (SmartChart.points st')
     = map (fun p => (ChartPoint.index p
                      + (SmartChart.len data - SmartChart.len prev))%Z)
           (SmartChart.points st).
Proof.
  intros Hmax Hprev Hc data st'.
  assert (Hdec : exists older, data = older ++ prev).
  { unfold data. destruct parsedData as [|c parsed'].
    - exists []. reflexivity.
    - destruct (mergeHistory_prepends (c :: parsed') prev Hmax)
        as (older & E & _).
      exists older. exact E. }
  destruct Hdec as (older & Hdata).
  unfold st'. rewrite Hdata.
  destruct (prepend_consistent st older prev Hprev Hc) as (H1 & H2).
  split; [exact H1|]. split; [exact H2|].
  destruct (onDataLength_prepend st older prev Hprev) as (_ & Hpts & _).
  rewrite Hpts, map_map, len_app. simpl.
  apply map_ext. intro p. lia.
Qed.

Lemma load_more_keeps_pivots_witness :
  pivots_consistent
    (StockAnalyzer.loadedMore Examples.crossing_older Examples.crossing)
    (SmartChart.onDataLength
       Examples.charted
       (SmartChart.len
          (StockAnalyzer.loadedMore Examples.crossing_older
                                    Examples.crossing))).
Proof.
  destruct (load_more_keeps_pivots Examples.charted Examples.crossing_older
                                   Examples.crossing) as (H & _).
  - unfold StockAnalyzer.MAX_BARS. simpl. lia.
  - reflexivity.
  - apply consistent_intro.
    + simpl. lia.
    + reflexivity.
    + apply Forall_cons.
      { exists (Examples.bar "2024-01-08" 10 1000). repeat split. }
      apply Forall_cons; [|apply Forall_nil].
      exists (Examples.bar "2024-01-09" 40 3000). repeat split.
    + exact I.
  - exact H.
Defined.

(** ** The watchlist *)

Lemma in_remove_symbol (sym s : string) (l : list string) :
  In s (filter (fun x => negb (String.eqb x sym)) l) <-> In s l /\ s <> sym.
Proof.
  rewrite filter_In, negb_true_iff, String.eqb_neq. tauto.
Qed.

Lemma includes_iff (sym : string) (l : list string) :
  existsb (String.eqb sym) l = true <-> In sym l.
Proof.
  rewrite existsb_exists. split.
  - intros (x & Hx & E). apply String.eqb_eq in E. subst. exact Hx.
  - intro H. exists sym. split; [exact H | apply String.eqb_refl].
Qed.

Lemma remove_absent (sym : string) (l : list string) :
  ~ In sym l -> filter (fun x => negb (String.eqb x sym)) l = l.
Proof.
  induction l as [|a l IH]; intro H; simpl; [reflexivity|].
  destruct (String.eqb a sym) eqn:E.
  - apply String.eqb_eq in E. subst. exfalso. apply H. left. reflexivity.
  - simpl. f_equal. apply IH. intro Hin. apply H. right. exact Hin.
Qed.

(** X22: toggling a non-empty symbol flips its membership in the
    watchlist and nothing else: the other symbols stay, in their order,
    and a list without repetitions stays without repetitions.  Toggling
    the empty symbol does nothing. *)
Theorem toggle_watchlist_flips (sym : string) (prev : list string) :
  sym <> EmptyString ->
  StockAnalyzer.toggleWatchlist EmptyString prev = prev
  /\ (In sym (StockAnalyzer.toggleWatchlist sym prev) <-> ~ In sym prev)
  /\ filter (fun s => negb (String.eqb s sym))
            (StockAnalyzer.toggleWatchlist sym prev)
     = filter (fun s => negb (String.eqb s sym)) prev
  /\ (NoDup prev -> NoDup (StockAnalyzer.toggleWatchlist sym prev)).
Proof.
  intro Hne. split; [reflexivity|].
  unfold StockAnalyzer.toggleWatchlist.
  replace (String.eqb sym "") with false
    by (symmetry; apply String.eqb_neq; exact Hne).
  destruct (existsb (String.eqb sym) prev) eqn:E.
  - apply includes_iff in E. split; [|split].
    + rewrite in_remove_symbol. tauto.
    + induction prev as [|a l IH]; simpl; [reflexivity|].
      destruct (String.eqb a sym) eqn:Ea; simpl; rewrite ?Ea; simpl.
      * destruct (in_dec string_dec sym l) as [Hin|Hout].
        -- apply IH. exact Hin.
        -- rewrite !(remove_absent sym l Hout). reflexivity.
      * f_equal. destruct (in_dec string_dec sym l) as [Hin|Hout].
        -- apply IH. exact Hin.
        -- rewrite !(remove_absent sym l Hout). reflexivity.
    + intro Hnd. apply NoDup_filter. exact Hnd.
  - assert (Hout : ~ In sym prev).
    { intro Hin. apply includes_iff in Hin. congruence. }
    split; [|split].
    + split; [intros _; exact Hout|]. intros _. apply in_or_app.
      right. left. reflexivity.
    + rewrite filter_app. simpl. rewrite String.eqb_refl. simpl.
      apply app_nil_r.
    + intro Hnd. apply NoDup_app_disjoint; [exact Hnd | repeat constructor; auto|].
      intros x Hx [<-|[]]. contradiction.
Qed.

Lemma toggle_watchlist_flips_witness :
  In "2330"%string (StockAnalyzer.toggleWatchlist "2330" ["AAPL"%string])
  <-> ~ In "2330"%string ["AAPL"%string].
Proof.
  apply (toggle_watchlist_flips "2330" ["AAPL"%string]).
  discriminate.
Defined.

(** X23: toggling a symbol that is not on the watchlist and toggling it
    again gives the list back unchanged.  For a symbol that is on a list
    without repetitions the double toggle keeps the same symbols but moves
    it to the end.  Removing a symbol takes out every occurrence and
    leaves a list on which a second removal changes nothing. *)
Theorem toggle_twice (sym : string) (prev : list string) :
  sym <> EmptyString ->
  (~ In sym prev ->
   StockAnalyzer.toggleWatchlist sym (StockAnalyzer.toggleWatchlist sym prev)
   = prev)
  /\ (In sym prev ->
      StockAnalyzer.toggleWatchlist
        sym (StockAnalyzer.toggleWatchlist sym prev)
      = StockAnalyzer.removeFromWatchlist sym prev ++ [sym])
  /\ (In sym prev -> NoDup prev ->
      Permutation
        (StockAnalyzer.toggleWatchlist
           sym (StockAnalyzer.toggleWatchlist sym prev)) prev)
  /\ ~ In sym (StockAnalyzer.removeFromWatchlist sym prev)
  /\ StockAnalyzer.removeFromWatchlist
       sym (StockAnalyzer.removeFromWatchlist sym prev)
     = StockAnalyzer.removeFromWatchlist sym prev.
Proof.
  intro Hne.
  assert (Hrm : ~ In sym (StockAnalyzer.removeFromWatchlist sym prev)).
  { unfold StockAnalyzer.removeFromWatchlist. rewrite in_remove_symbol.
    tauto. }
  assert (Hempty : String.eqb sym "" = false)
    by (apply String.eqb_neq; exact Hne).
  assert (Hpresent : In sym prev ->
            StockAnalyzer.toggleWatchlist
              sym (StockAnalyzer.toggleWatchlist sym prev)
            = StockAnalyzer.removeFromWatchlist sym prev ++ [sym]).
  { intro Hin. unfold StockAnalyzer.toggleWatchlist at 2. rewrite Hempty.
    replace (existsb (String.eqb sym) prev) with true
      by (symmetry; apply includes_iff; exact Hin).
    fold (StockAnalyzer.removeFromWatchlist sym prev).
    unfold StockAnalyzer.toggleWatchlist. rewrite Hempty.
    destruct (existsb (String.eqb sym)
                      (StockAnalyzer.removeFromWatchlist sym prev)) eqn:E.
    - apply includes_iff in E. contradiction.
    - reflexivity. }
  split; [|split; [exact Hpresent|split; [|split; [exact Hrm|]]]].
  - intro Hout. unfold StockAnalyzer.toggleWatchlist at 2. rewrite Hempty.
    replace (existsb (String.eqb sym) prev) with false.
    2:{ symmetry. destruct (existsb (String.eqb sym) prev) eqn:E;
          [|reflexivity]. apply includes_iff in E. contradiction. }
    unfold StockAnalyzer.toggleWatchlist. rewrite Hempty.
    replace (existsb (String.eqb sym) (prev ++ [sym])) with true.
    2:{ symmetry. apply includes_iff. apply in_or_app. right. left.
        reflexivity. }
    rewrite filter_app. simpl. rewrite String.eqb_refl. simpl.
    rewrite app_nil_r. apply remove_absent. exact Hout.
  - intros Hin Hnd. rewrite (Hpresent Hin).
    unfold StockAnalyzer.removeFromWatchlist.
    clear Hpresent Hrm. induction prev as [|a l IH]; [destruct Hin|].
    inversion Hnd as [|? ? Ha Hl]; subst. simpl.
    destruct (String.eqb a sym) eqn:Ea; simpl.
    + apply String.eqb_eq in Ea. subst a.
      rewrite (remove_absent sym l Ha).
      apply Permutation_sym. apply Permutation_cons_append.
    + apply String.eqb_neq in Ea. constructor. apply IH; [|exact Hl].
      destruct Hin as [Hin|Hin]; [congruence | exact Hin].
  - unfold StockAnalyzer.removeFromWatchlist. apply remove_absent.
    exact Hrm.
Qed.

Lemma toggle_twice_witness :
  StockAnalyzer.toggleWatchlist
    "2330" (StockAnalyzer.toggleWatchlist "2330" ["AAPL"%string])
  = ["AAPL"%string].
Proof.
  destruct (toggle_twice "2330" ["AAPL"%string]) as (H & _).
  - discriminate.
  - apply H. simpl. intuition discriminate.
Defined.

(** ** Dragging by pointer *)





(** ** The small candle chart *)

Lemma candle_scaleY_inside (lo hi p q : Q) :
  lo < hi -> lo <= p -> p <= q -> q <= hi ->
  0 < CandleChart.scaleY lo hi q
  /\ CandleChart.scaleY lo hi q <= CandleChart.scaleY lo hi p
  /\ CandleChart.scaleY lo hi p < 100.
Proof.
  intros Hr Hp Hpq Hq. unfold CandleChart.scaleY.
  set (den := hi - lo + (hi - lo) * 0.1 * 2).
  set (pm := lo - (hi - lo) * 0.1).
  assert (Hden : 0 < den) by (unfold den; lra).
  assert (H0 : 0 < (p - pm) / den)
    by (apply Qlt_shift_div_l; [exact Hden | unfold pm; lra]).
  assert (H1 : (q - pm) / den < 1)
    by (apply Qlt_shift_div_r; [exact Hden | unfold pm, den; lra]).
  assert (Hmono : (p - pm) / den <= (q - pm) / den).
  { unfold Qdiv. apply Qmult_le_compat_r; [lra|].
    apply Qinv_le_0_compat. lra. }
  repeat split; lra.
Qed.

(** [data.map((d, i) => ...)] pairs each element with its own index. *)
Lemma in_combine_seq {A : Type} (l : list A) :
  forall (k i : nat) (d : A),
    In (i, d) (combine (seq k (List.length l)) l) ->
    (k <= i)%nat /\ nth_error l (i - k) = Some d.
Proof.
  induction l as [|a l IH]; intros k i d Hid; [destruct Hid|].
  simpl in Hid. destruct Hid as [Hid|Hid].
  - injection Hid as <- <-. rewrite Nat.sub_diag. split; [lia | reflexivity].
  - destruct (IH (S k) i d Hid) as (Hk & Hn). split; [lia|].
    replace (i - k)%nat with (S (i - S k)) by lia. exact Hn.
Qed.

(** X25: the small candle chart lays its candles out inside the 100 x 100
    view box.  For data with some price range and well-formed candles,
    every node sits in its own horizontal slot of width 100 / n (slot i
    for the i-th candle, body 0.7 of the slot, centred), so bodies never
    overlap or leave the box; vertically the wick runs from the high down
    to the low strictly inside the box with the body top between them, and
    a body is never drawn thinner than 0.5. *)
Theorem candle_chart_layout
        (d0 : CandleData.t) (ds : list CandleData.t) (node : CandleChart.Node.t) :
  let data := d0 :: ds in
  let step := 100 / inject_Z (Z.of_nat (List.length data)) in
  Forall well_formed_candle data ->
  CandleChart.minPrice d0 ds < CandleChart.maxPrice d0 ds ->
  In node (CandleChart.candles data) ->
  List.length (CandleChart.candles data) = List.length data
  /\ (exists i : nat,
        (i < List.length data)%nat
        /\ nth_error data i = Some (CandleChart.Node.raw node)
        /\ inject_Z (Z.of_nat i) * step < CandleChart.Node.x node
        /\ CandleChart.Node.x node + CandleChart.Node.candleWidth node
           < (inject_Z (Z.of_nat i) + 1) * step
        /\ 0 <= inject_Z (Z.of_nat i) * step
        /\ (inject_Z (Z.of_nat i) + 1) * step <= 100)
  /\ CandleChart.Node.candleWidth node == step * 0.7
  /\ 0 < CandleChart.Node.yWickTop node
  /\ CandleChart.Node.yWickTop node <= CandleChart.Node.yBody node
  /\ CandleChart.Node.yBody node <= CandleChart.Node.yWickBottom node
  /\ CandleChart.Node.yWickBottom node < 100
  /\ 0.5 <= CandleChart.Node.hBody node.
Proof.
  intros data step Hwf Hrange Hnode.
  split.
  { unfold CandleChart.candles, data.
    rewrite length_map, length_combine, length_seq. apply Nat.min_id. }
  unfold CandleChart.candles, data in Hnode.
  apply in_map_iff in Hnode. destruct Hnode as ((i & d) & <- & Hid).
  fold data in Hid.
  cbn [CandleChart.Node.x CandleChart.Node.yBody CandleChart.Node.hBody
       CandleChart.Node.yWickTop CandleChart.Node.yWickBottom
       CandleChart.Node.candleWidth CandleChart.Node.raw fst snd].
  fold data. fold step.
  assert (Hi : (i < List.length data)%nat).
  { apply in_combine_l in Hid. apply in_seq in Hid. lia. }
  assert (Hnth : nth_error data i = Some d).
  { destruct (in_combine_seq data 0 i d Hid) as (_ & Hn).
    rewrite Nat.sub_0_r in Hn. exact Hn. }
  assert (Hd : In d data) by (eapply nth_error_In; exact Hnth).
  pose proof (proj1 (Forall_forall _ _) Hwf d Hd) as (Hlo & Hoh & Hlc & Hch).
  set (lo := CandleChart.minPrice d0 ds) in *.
  set (hi := CandleChart.maxPrice d0 ds) in *.
  assert (Hmin : lo <= CandleData.low d).
  { unfold lo, CandleChart.minPrice. apply fold_min_bound.
    change (CandleData.low d0 :: map CandleData.low ds)
      with (map CandleData.low data). apply in_map. exact Hd. }
  assert (Hmax : CandleData.high d <= hi).
  { unfold hi, CandleChart.maxPrice. apply fold_max_bound.
    change (CandleData.high d0 :: map CandleData.high ds)
      with (map CandleData.high data). apply in_map. exact Hd. }
  set (n := inject_Z (Z.of_nat (List.length data))) in *.
  assert (Hn : 0 < n).
  { unfold n. change 0 with (inject_Z 0). rewrite <- Zlt_Qlt.
    unfold data. simpl. lia. }
  assert (Hstep : 0 < step) by (apply Qlt_shift_div_l; [exact Hn | lra]).
  assert (Hnstep : n * step == 100) by (unfold step; field; lra).
  set (qi := inject_Z (Z.of_nat i)).
  assert (Hqi0 : 0 <= qi).
  { unfold qi. change 0 with (inject_Z 0). rewrite <- Zle_Qle. lia. }
  assert (Hqi1 : qi + 1 <= n).
  { unfold qi, n. change 1 with (inject_Z 1).
    rewrite <- inject_Z_plus, <- Zle_Qle. lia. }
  assert (Hslot0 : 0 <= qi * step) by (apply Qmult_le_0_compat; lra).
  assert (Hslot1 : (qi + 1) * step <= 100).
  { rewrite <- Hnstep. apply Qmult_le_compat_r; lra. }
  destruct (candle_scaleY_inside lo hi (CandleData.low d) (CandleData.open d)
              Hrange Hmin Hlo) as (_ & Hyo1 & Hyl); [lra|].
  destruct (candle_scaleY_inside lo hi (CandleData.low d) (CandleData.close d)
              Hrange Hmin Hlc) as (_ & Hyc1 & _); [lra|].
  destruct (candle_scaleY_inside lo hi (CandleData.open d) (CandleData.high d)
              Hrange) as (Hyh & Hyo2 & _); [lra | exact Hoh | exact Hmax|].
  destruct (candle_scaleY_inside lo hi (CandleData.close d) (CandleData.high d)
              Hrange) as (_ & Hyc2 & _); [lra | exact Hch | exact Hmax|].
  split.
  { exists i. split; [exact Hi|]. split; [exact Hnth|]. fold qi.
    assert (E1 : (qi + 1) * step == qi * step + step) by ring.
    assert (E2 : step * 0.3 / 2 == step * 0.15) by field.
    clearbody step.
    repeat split; lra. }
  split; [reflexivity|].
  split; [exact Hyh|].
  pose proof (Math_min_cases (CandleChart.scaleY lo hi (CandleData.open d))
                             (CandleChart.scaleY lo hi (CandleData.close d)))
    as [(_ & ->)|(_ & ->)];
    pose proof (Math_max_ge 0.5
                  (Qabs (CandleChart.scaleY lo hi (CandleData.close d)
                         - CandleChart.scaleY lo hi (CandleData.open d))))
    as (Hhb & _);
    repeat split; try assumption; lra.
Qed.

Lemma candle_chart_layout_witness :
  List.length (CandleChart.candles Examples.crossing)
  = List.length Examples.crossing.
Proof.
  pose (d0 := Examples.bar "2024-01-02" 20 1000).
  pose (node := hd (CandleChart.Node.mk 0 0 0 0 0 "" 0 d0)
                   (CandleChart.candles Examples.crossing)).
  destruct (candle_chart_layout d0 (tl Examples.crossing) node) as (H & _).
  - repeat constructor; discriminate.
  - reflexivity.
  - vm_compute. left. reflexivity.
  - exact H.
Defined.
